(** * Frame extraction at a fixed time interval

    A model of [get_frame_number.py]: the interactive [main] that asks for
    an input video, an output directory and an interval, validates them,
    opens the video and runs the extraction loop.

    Python floats are IEEE-754 binary64 values: the clock, the interval
    and the duration are primitive [float]s, whose operations the kernel
    evaluates as the hardware does.  The operations of the Python runtime
    that are not primitive ([int], [round], [//], [%], [float] on a
    string, [format]) are written out over the exact mantissa/exponent
    view [Prim2SF] of a float. *)

From Stdlib Require Import ZArith NArith List String Ascii Bool Lia Floats.
From Stdlib Require Import DecimalString Sorted.
Import ListNotations.
Local Open Scope Z_scope.

(** ** Exceptions and results *)

(** The exceptions that can escape the operations [main] performs. *)
Inductive PyExn : Type :=
| ValueError
| OverflowError
| ZeroDivisionError
| OSError
| CvError.

(** A computation that returns a value or raises. *)
Definition Result (A : Type) : Type := (PyExn + A)%type.

Definition ret {A : Type} (a : A) : Result A := inr a.
Definition raise {A : Type} (e : PyExn) : Result A := inl e.
Definition bind {A B : Type} (m : Result A) (k : A -> Result B) : Result B :=
  match m with
  | inl e => inl e
  | inr a => k a
  end.

Declare Scope py_scope.
Delimit Scope py_scope with py.
Notation "x <- m ;; k" := (bind m (fun x => k))
  (at level 61, m at next level, right associativity) : py_scope.

(** ** The Python runtime on floats *)

Module Py.

(** [float(n)] for an integer [n]: the nearest binary64 value.  Every
    integer the program converts was obtained by truncating a float, so
    the conversion is exact and cannot overflow. *)
Definition float_of_Z (n : Z) : float :=
  SF2Prim (binary_normalize prec emax n 0 false).

(** [int(x)]: truncation toward zero; NaN and the infinities raise. *)
Definition int (x : float) : Result Z :=
  match Prim2SF x with
  | S754_nan => raise ValueError
  | S754_infinity _ => raise OverflowError
  | S754_zero _ => ret 0
  | S754_finite s m e => ret (cond_Zopp s (Z.shiftl (Zpos m) e))
  end.

(** The integer nearest to [m * 2^e] for [0 <= m], ties to even. *)
Definition nearest_even (m e : Z) : Z :=
  if 0 <=? e then Z.shiftl m e
  else
    let d := 2 ^ (- e) in
    let q := m / d in
    match 2 * (m mod d) ?= d with
    | Lt => q
    | Gt => q + 1
    | Eq => if Z.even q then q else q + 1
    end.

(** [round(x)] with one argument: the nearest integer, ties to even. *)
Definition round (x : float) : Result Z :=
  match Prim2SF x with
  | S754_nan => raise ValueError
  | S754_infinity _ => raise OverflowError
  | S754_zero _ => ret 0
  | S754_finite s m e => ret (cond_Zopp s (nearest_even (Zpos m) e))
  end.

(** C's [floor]. *)
Definition floor (x : float) : float :=
  match Prim2SF x with
  | S754_finite s m e =>
      if 0 <=? e then x else float_of_Z (Z.shiftl (cond_Zopp s (Zpos m)) e)
  | _ => x
  end.

(** C's [fmod]: the exact remainder of [x / y], with the sign of [x]. *)
Definition fmod (x y : float) : float :=
  match Prim2SF x, Prim2SF y with
  | S754_nan, _ | _, S754_nan => nan
  | S754_infinity _, _ => nan
  | _, S754_zero _ => nan
  | _, S754_infinity _ => x
  | S754_zero _, _ => x
  | S754_finite sx mx ex, S754_finite _ my ey =>
      let e := Z.min ex ey in
      let r := Z.rem (Z.shiftl (Zpos mx) (ex - e)) (Z.shiftl (Zpos my) (ey - e)) in
      SF2Prim (binary_normalize prec emax (cond_Zopp sx r) e sx)
  end.

(** C truth value of a double: anything but a zero. *)
Definition nonzero (x : float) : bool := negb (x =? 0)%float.

(** [copysign(0.0, y)]. *)
Definition copysign0 (y : float) : float :=
  if get_sign y then neg_zero else zero.

(** [vx / wx] on floats (CPython's [float_div]). *)
Definition truediv (vx wx : float) : Result float :=
  if (wx =? 0)%float then raise ZeroDivisionError else ret (vx / wx)%float.

(** [vx % wx] on floats (CPython's [float_rem]). *)
Definition rem (vx wx : float) : Result float :=
  if (wx =? 0)%float then raise ZeroDivisionError
  else
    let md := fmod vx wx in
    ret (if nonzero md
         then if xorb (wx <? 0)%float (md <? 0)%float then (md + wx)%float else md
         else copysign0 wx).

(** [vx // wx] on floats (CPython's [float_floor_div]). *)
Definition floordiv (vx wx : float) : Result float :=
  if (wx =? 0)%float then raise ZeroDivisionError
  else
    let md := fmod vx wx in
    let dv := ((vx - md) / wx)%float in
    let dv := if nonzero md && xorb (wx <? 0)%float (md <? 0)%float
              then (dv - 1)%float else dv in
    ret (if nonzero dv
         then let fl := floor dv in
              if (0.5 <? dv - fl)%float then (fl + 1)%float else fl
         else copysign0 (vx / wx)%float).

(** *** Strings: [str.strip], [float] on a string, [format], paths

    A Python [str] is represented by its UTF-8 encoding, one [ascii]
    per byte: the order of two strings is the order of their code
    points, and a literal of this file is the string it shows. *)

Definition byte (c : ascii) : N := N_of_ascii c.

(** White space as [str.isspace] has it, by the length of its
    encoding: U+0009-000D and U+001C-0020 in one byte, U+0085 and
    U+00A0 in two, and U+1680, U+2000-200A, U+2028, U+2029, U+202F,
    U+205F and U+3000 in three. *)
Definition is_space (c : ascii) : bool :=
  let n := byte c in
  ((9 <=? n) && (n <=? 13) || (28 <=? n) && (n <=? 32))%N.

Definition is_space2 (a b : ascii) : bool :=
  ((byte a =? 0xC2) && ((byte b =? 0x85) || (byte b =? 0xA0)))%N.

Definition is_space3 (a b c : ascii) : bool :=
  ((byte a =? 0xE1) && (byte b =? 0x9A) && (byte c =? 0x80)
   || (byte a =? 0xE2) && (byte b =? 0x80)
      && ((0x80 <=? byte c) && (byte c <=? 0x8A)
          || (byte c =? 0xA8) || (byte c =? 0xA9) || (byte c =? 0xAF))
   || (byte a =? 0xE2) && (byte b =? 0x81) && (byte c =? 0x9F)
   || (byte a =? 0xE3) && (byte b =? 0x80) && (byte c =? 0x80))%N.

Definition is_digit (c : ascii) : bool :=
  let n := N_of_ascii c in ((48 <=? n) && (n <=? 57))%N.

Definition digit_val (c : ascii) : Z := Z.of_N (N_of_ascii c) - 48.

Definition lower (c : ascii) : ascii :=
  let n := N_of_ascii c in
  if ((65 <=? n) && (n <=? 90))%N then ascii_of_N (n + 32) else c.

(** What is left of [s] once the characters at its front that [p1],
    [p2] and [p3] recognise, by their one, two or three bytes, are
    dropped. *)
Fixpoint strip_front (p1 : ascii -> bool) (p2 : ascii -> ascii -> bool)
  (p3 : ascii -> ascii -> ascii -> bool) (s : list ascii) : list ascii :=
  match s with
  | a :: r =>
      if p1 a then strip_front p1 p2 p3 r
      else
        match r with
        | b :: r1 =>
            if p2 a b then strip_front p1 p2 p3 r1
            else
              match r1 with
              | c :: r2 => if p3 a b c then strip_front p1 p2 p3 r2 else s
              | [] => s
              end
        | [] => s
        end
  | [] => []
  end.

(** [s.lstrip()]. *)
Definition lstrip (s : list ascii) : list ascii :=
  strip_front is_space is_space2 is_space3 s.

(** [s.rstrip()]: the same from the last byte backwards. *)
Definition rstrip (s : list ascii) : list ascii :=
  List.rev
    (strip_front is_space (fun b a => is_space2 a b)
       (fun c b a => is_space3 a b c) (List.rev s)).

(** [s.strip()]. *)
Definition strip (s : string) : string :=
  string_of_list_ascii (rstrip (lstrip (list_ascii_of_string s))).

(** The code points of a string, one after the other; [None] stands
    for a byte that starts no UTF-8 sequence, which no [str] holds. *)
Definition cont (y : N) : bool := ((0x80 <=? y) && (y <=? 0xBF))%N.

Definition lead2 (x : N) : bool := ((0xC2 <=? x) && (x <=? 0xDF))%N.

Definition lead3 (x y : N) : bool :=
  ((x =? 0xE0) && (0xA0 <=? y) && (y <=? 0xBF)
   || (0xE1 <=? x) && (x <=? 0xEC) && cont y
   || (x =? 0xED) && (0x80 <=? y) && (y <=? 0x9F)
   || (0xEE <=? x) && (x <=? 0xEF) && cont y)%N.

Definition lead4 (x y : N) : bool :=
  ((x =? 0xF0) && (0x90 <=? y) && (y <=? 0xBF)
   || (0xF1 <=? x) && (x <=? 0xF3) && cont y
   || (x =? 0xF4) && (0x80 <=? y) && (y <=? 0x8F))%N.

Fixpoint code_points (s : list ascii) : list (option N) :=
  match s with
  | [] => []
  | a :: r =>
      let x := byte a in
      if (x <? 0x80)%N then Some x :: code_points r
      else
        match r with
        | b :: r1 =>
            let y := byte b in
            if lead2 x && cont y
            then Some ((x - 0xC0) * 64 + (y - 0x80))%N :: code_points r1
            else
              match r1 with
              | c :: r2 =>
                  let z := byte c in
                  if lead3 x y && cont z
                  then Some ((x - 0xE0) * 4096 + (y - 0x80) * 64
                             + (z - 0x80))%N :: code_points r2
                  else
                    match r2 with
                    | d :: r3 =>
                        let t := byte d in
                        if lead4 x y && cont z && cont t
                        then Some ((x - 0xF0) * 262144 + (y - 0x80) * 4096
                                   + (z - 0x80) * 64 + (t - 0x80))%N
                               :: code_points r3
                        else None :: code_points r
                    | [] => None :: code_points r
                    end
              | [] => None :: code_points r
              end
        | [] => [None]
        end
  end.

(** [Py_UNICODE_ISSPACE] on a code point. *)
Definition is_space_cp (c : N) : bool :=
  ((9 <=? c) && (c <=? 13) || (28 <=? c) && (c <=? 32)
   || (c =? 0x85) || (c =? 0xA0) || (c =? 0x1680)
   || (0x2000 <=? c) && (c <=? 0x200A)
   || (c =? 0x2028) || (c =? 0x2029) || (c =? 0x202F) || (c =? 0x205F)
   || (c =? 0x3000))%N.

(** The decimal digits of Unicode 14.0.0, the table of CPython 3.11:
    the code point of the digit zero of each script, followed by its
    digits one to nine. *)
Definition decimal_zeros : list N :=
  [0x30; 0x660; 0x6F0; 0x7C0; 0x966; 0x9E6; 0xA66; 0xAE6; 0xB66; 0xBE6;
   0xC66; 0xCE6; 0xD66; 0xDE6; 0xE50; 0xED0; 0xF20; 0x1040; 0x1090;
   0x17E0; 0x1810; 0x1946; 0x19D0; 0x1A80; 0x1A90; 0x1B50; 0x1BB0;
   0x1C40; 0x1C50; 0xA620; 0xA8D0; 0xA900; 0xA9D0; 0xA9F0; 0xAA50;
   0xABF0; 0xFF10; 0x104A0; 0x10D30; 0x11066; 0x110F0; 0x11136; 0x111D0;
   0x112F0; 0x11450; 0x114D0; 0x11650; 0x116C0; 0x11730; 0x118E0;
   0x11950; 0x11C50; 0x11D50; 0x11DA0; 0x16A60; 0x16AC0; 0x16B50;
   0x1D7CE; 0x1D7D8; 0x1D7E2; 0x1D7EC; 0x1D7F6; 0x1E140; 0x1E2F0;
   0x1E950; 0x1FBF0]%N.

(** [Py_UNICODE_TODECIMAL]. *)
Definition to_decimal (c : N) : option N :=
  match List.find (fun z => (z <=? c) && (c <? z + 10))%N decimal_zeros with
  | Some z => Some (c - z)%N
  | None => None
  end.

(** [_PyUnicode_TransformDecimalAndSpaceToASCII] on a string that is
    not ASCII: white space becomes a space and a decimal digit its
    ASCII digit; at anything else beyond U+007E the text ends with a
    question mark. *)
Fixpoint to_ascii (cps : list (option N)) : list ascii :=
  match cps with
  | [] => []
  | Some c :: r =>
      if (c <? 127)%N then ascii_of_N c :: to_ascii r
      else if is_space_cp c then " "%char :: to_ascii r
      else
        match to_decimal c with
        | Some d => ascii_of_N (48 + d) :: to_ascii r
        | None => ["?"%char]
        end
  | None :: _ => ["?"%char]
  end.

(** C's [isspace] in the C locale ([Py_ISSPACE]). *)
Definition c_isspace (c : ascii) : bool :=
  let n := byte c in ((9 <=? n) && (n <=? 13) || (n =? 32))%N.

Fixpoint c_lstrip (s : list ascii) : list ascii :=
  match s with
  | c :: r => if c_isspace c then c_lstrip r else s
  | [] => []
  end.

(** The digits after the first one of a digit part: digits, each
    optionally preceded by one underscore.  [acc] is the value read so
    far and [n] the number of digits. *)
Fixpoint digitpart_tail (s : list ascii) (acc n : Z) : Z * Z * list ascii :=
  match s with
  | c :: r =>
      if is_digit c then digitpart_tail r (10 * acc + digit_val c) (n + 1)
      else if Ascii.eqb c "_" then
        match r with
        | d :: r' =>
            if is_digit d then digitpart_tail r' (10 * acc + digit_val d) (n + 1)
            else (acc, n, s)
        | [] => (acc, n, s)
        end
      else (acc, n, s)
  | [] => (acc, n, [])
  end.

Definition digitpart (s : list ascii) (acc n : Z) : option (Z * Z * list ascii) :=
  match s with
  | c :: r =>
      if is_digit c then Some (digitpart_tail r (10 * acc + digit_val c) (n + 1))
      else None
  | [] => None
  end.

Definition sign (s : list ascii) : bool * list ascii :=
  match s with
  | c :: r =>
      if Ascii.eqb c "-" then (true, r)
      else if Ascii.eqb c "+" then (false, r)
      else (false, s)
  | [] => (false, s)
  end.

(** The binary64 value nearest to [(-1)^neg * m * 10^e10], ties to even. *)
Definition decimal (neg : bool) (m e10 : Z) : float :=
  SF2Prim
    (if m =? 0 then S754_zero neg
     else if 0 <=? e10
     then binary_normalize prec emax (cond_Zopp neg (m * 10 ^ e10)) 0 neg
     else
       let '(q, e, l) := SFdiv_core_binary prec emax m 0 (10 ^ (- e10)) 0 in
       binary_round_aux prec emax neg q e l).

(** The exponent part of a decimal literal, if any, up to the end of
    the string. *)
Definition exponent (s : list ascii) : option Z :=
  match s with
  | [] => Some 0
  | c :: r =>
      if Ascii.eqb (lower c) "e" then
        let (eneg, r) := sign r in
        match digitpart r 0 0 with
        | Some (e, _, []) => Some (cond_Zopp eneg e)
        | _ => None
        end
      else None
  end.

(** [float(s)] for a string [s]: a string that is not ASCII is first
    brought to ASCII, then the C white space around the text is
    ignored; the text is an optionally signed [inf], [infinity] or [nan]
    in any case, or a decimal literal with optional fraction and
    exponent; anything else raises [ValueError]. *)
Definition float_of_string (str : string) : Result float :=
  let u := list_ascii_of_string str in
  let a := if forallb (fun c => byte c <? 0x80)%N u then u
           else to_ascii (code_points u) in
  let (neg, s) := sign (List.rev (c_lstrip (List.rev (c_lstrip a)))) in
  let word := string_of_list_ascii (List.map lower s) in
  if String.eqb word "inf" || String.eqb word "infinity"
  then ret (if neg then neg_infinity else infinity)
  else if String.eqb word "nan" then ret nan
  else
    let '(m, s, has_int) :=
      match digitpart s 0 0 with
      | Some (m, _, r) => (m, r, true)
      | None => (0, s, false)
      end in
    let '(m, nfrac, s, has_frac) :=
      match s with
      | c :: r =>
          if Ascii.eqb c "." then
            match digitpart r m 0 with
            | Some (m', k, r') => (m', k, r', true)
            | None => (m, 0, r, false)
            end
          else (m, 0, s, false)
      | [] => (m, 0, s, false)
      end in
    if has_int || has_frac then
      match exponent s with
      | Some e => ret (decimal neg m (e - nfrac))
      | None => raise ValueError
      end
    else raise ValueError.

(** [format(n, "0<width>d")]: decimal digits, zero-padded on the left to
    at least [width] characters, the sign first. *)
Definition decimal_digits (n : N) : string :=
  NilZero.string_of_uint (N.to_uint n).

Definition zeros (k : nat) : string :=
  string_of_list_ascii (List.repeat "0"%char k).

Definition format_0d (width : nat) (n : Z) : string :=
  let ds := decimal_digits (Z.abs_N n) in
  if n <? 0
  then ("-" ++ zeros (width - 1 - String.length ds) ++ ds)%string
  else (zeros (width - String.length ds) ++ ds)%string.

(** [os.path.join(a, b)] on POSIX paths. *)
Definition path_join (a b : string) : string :=
  if String.prefix "/" b then b
  else if String.eqb a "" || Ascii.eqb (List.last (list_ascii_of_string a) "/"%char) "/"
  then (a ++ b)%string
  else (a ++ "/" ++ b)%string.

End Py.

(** ** The world outside the program *)

(** A decoded image: its raw samples. *)
Definition Frame : Type := list N.

(** What [cv2.imwrite] does with a path and an image: it returns [True],
    returns [False], or raises [cv2.error]. *)
Inductive ImWriteResult : Type :=
| Written
| NotWritten
| ImWriteRaises.

(** The terminal, the file system and the video backend of one run. *)
Record World : Type := {
  (** the lines [input] reads, in order; a missing line is end of input *)
  stdin : list string;
  (** [os.path.isfile] *)
  isfile : string -> bool;
  (** whether [os.makedirs(dir, exist_ok=True)] succeeds *)
  makedirs : string -> bool;
  (** [cap.isOpened()] for the capture of a path *)
  isOpened : string -> bool;
  (** [cap.get(cv2.CAP_PROP_FPS)] *)
  prop_fps : float;
  (** [cap.get(cv2.CAP_PROP_FRAME_COUNT)] *)
  prop_frame_count : float;
  (** [cap.read()] right after [cap.set(cv2.CAP_PROP_POS_MSEC, ms)]:
      the frame, or nothing when [ret] is false *)
  read_at : float -> option Frame;
  (** [cv2.imwrite(path, frame, [IMWRITE_PNG_COMPRESSION, 3])] *)
  imwrite : string -> Frame -> ImWriteResult
}.

(** What the program does to the world, in order. *)
Inductive Event : Type :=
| Input (prompt : string)
| IsFile (path : string)
| MakeDirs (dir : string)
| VideoCapture (path : string)
| PbarOpen (total : option Z) (desc : string)
| SetPosMsec (ms : float)
| Read (ok : bool)
| ImWrite (path : string) (r : ImWriteResult)
| PbarUpdate
| PbarClose
| Release
| PrintSummary (saved : Z) (out_dir : string) (interval : float).

(** The messages [main] passes to [SystemExit]. *)
Inductive ExitMessage : Type :=
| NoInput
| InvalidInterval
| InputNotFound (path : string)
| CannotOpen (path : string).

(** How a run ends: [main] returns, [SystemExit] is raised with a
    message, another exception escapes, or the run is cut off while
    the loop is still going. *)
Inductive Outcome : Type :=
| Done
| SystemExit (m : ExitMessage)
| Uncaught (e : PyExn)
| Unfinished.

(** The exit status of the process. *)
Definition exit_code (o : Outcome) : option Z :=
  match o with
  | Done => Some 0
  | SystemExit _ | Uncaught _ => Some 1
  | Unfinished => None
  end.

(** A piece of the program: the events it performs, then a value or
    the end of the run. *)
Definition Run (A : Type) : Type := (list Event * (Outcome + A))%type.

Definition pure {A : Type} (a : A) : Run A := ([], inr a).
Definition emit (e : Event) : Run unit := ([e], inr tt).
Definition stop {A : Type} (o : Outcome) : Run A := ([], inl o).
Definition lift {A : Type} (r : Result A) : Run A :=
  match r with
  | inl e => stop (Uncaught e)
  | inr a => pure a
  end.
Definition andthen {A B : Type} (m : Run A) (k : A -> Run B) : Run B :=
  match m with
  | (t, inl o) => (t, inl o)
  | (t, inr a) => let (t', r) := k a in (t ++ t', r)
  end.

Declare Scope run_scope.
Delimit Scope run_scope with run.
Notation "x <- m ;; k" := (andthen m (fun x => k))
  (at level 61, m at next level, right associativity) : run_scope.
Notation "m ;;; k" := (andthen m (fun _ => k))
  (at level 61, right associativity) : run_scope.

Definition trace {A : Type} (r : Run A) : list Event := fst r.
Definition outcome (r : Run unit) : Outcome :=
  match snd r with
  | inl o => o
  | inr _ => Done
  end.

(** ** The program *)

(** [ask]: the [k]-th line of input, stripped; end of input exits. *)
Definition ask (w : World) (k : nat) (prompt : string) : Run string :=
  match nth_error (stdin w) k with
  | Some line => ([Input prompt], inr (Py.strip line))
  | None => ([Input prompt], inl (SystemExit NoInput))
  end.

(** Lines 36-41: the interval is parsed and must not be [<= 0]. *)
Definition parse_interval (interval_str : string) : Run float :=
  match Py.float_of_string interval_str with
  | inr interval =>
      if (interval <=? 0)%float then stop (SystemExit InvalidInterval)
      else pure interval
  | inl ValueError => stop (SystemExit InvalidInterval)
  | inl e => stop (Uncaught e)
  end.

(** Lines 71-76: the file name of the frame at [current_time]. *)
Definition timestamp (current_time : float) : Result (Z * Z * Z * Z) :=
  (q <- Py.floordiv current_time 3600 ;;
   hh <- Py.int q ;;
   r <- Py.rem current_time 3600 ;;
   q <- Py.floordiv r 60 ;;
   mm <- Py.int q ;;
   r <- Py.rem current_time 60 ;;
   ss <- Py.int r ;;
   i <- Py.int current_time ;;
   ms_int <- Py.round ((current_time - Py.float_of_Z i) * 1000)%float ;;
   ret (hh, mm, ss, ms_int))%py.

Definition frame_name (f : Z * Z * Z * Z) : string :=
  let '(hh, mm, ss, ms_int) := f in
  ("frame_" ++ Py.format_0d 2 hh ++ "_" ++ Py.format_0d 2 mm ++ "_"
   ++ Py.format_0d 2 ss ++ "." ++ Py.format_0d 3 ms_int ++ ".png")%string.

Definition filename (current_time : float) : Result string :=
  (f <- timestamp current_time ;; ret (frame_name f))%py.

(** Lines 52-54: the duration of the video in seconds. *)
Definition duration_of (w : World) : Result float :=
  let fps := prop_fps w in
  (total_frames <-
     (if Py.nonzero (prop_frame_count w) then Py.int (prop_frame_count w)
      else ret 0) ;;
   if (0 <? fps)%float then Py.truediv (Py.float_of_Z total_frames) fps
   else ret 0%float)%py.

(** Line 57: the total announced to the progress bar. *)
Definition expected_frames (duration_sec interval : float) : Result (option Z) :=
  if (0 <? duration_sec)%float then
    (q <- Py.floordiv duration_sec interval ;;
     n <- Py.int q ;;
     ret (Some (n + 1)))%py
  else ret None.

Section Extraction.

Variable w : World.
Variables (out_dir : string) (interval duration_sec : float).

(** Line 80: the write; its boolean result is dropped. *)
Definition write_frame (outpath : string) (frame : Frame) : Run unit :=
  match imwrite w outpath frame with
  | ImWriteRaises => (emit (ImWrite outpath ImWriteRaises) ;;; stop (Uncaught CvError))%run
  | r => emit (ImWrite outpath r)
  end.

(** Lines 63-86: the extraction loop, from the clock [current_time] with
    [saved] frames counted so far; [fuel] bounds the number of
    iterations.  The value is the final count. *)
Fixpoint loop (fuel : nat) (current_time : float) (saved : Z) : Run Z :=
  match fuel with
  | O => stop Unfinished
  | S fuel =>
      (emit (SetPosMsec (current_time * 1000)%float) ;;;
       match read_at w (current_time * 1000)%float with
       | None => emit (Read false) ;;; pure saved
       | Some frame =>
           emit (Read true) ;;;
           filename <- lift (filename current_time) ;;
           let outpath := Py.path_join out_dir filename in
           write_frame outpath frame ;;;
           let saved := saved + 1 in
           emit PbarUpdate ;;;
           let current_time := (current_time + interval)%float in
           if (duration_sec <? current_time)%float then pure saved
           else loop fuel current_time saved
       end)%run
  end.

End Extraction.

(** [os.path.basename] on POSIX paths. *)
Definition basename (p : string) : string :=
  string_of_list_ascii
    (fold_left (fun acc c => if Ascii.eqb c "/" then [] else acc ++ [c])
       (list_ascii_of_string p) []).

(** Lines 48-90: from opening the video to the summary. *)
Definition extract (w : World) (fuel : nat)
  (input_path out_dir : string) (interval : float) : Run unit :=
  (emit (VideoCapture input_path) ;;;
   (if isOpened w input_path then pure tt
    else stop (SystemExit (CannotOpen input_path))) ;;;
   duration_sec <- lift (duration_of w) ;;
   total <- lift (expected_frames duration_sec interval) ;;
   emit (PbarOpen total (basename input_path)) ;;;
   saved <- loop w out_dir interval duration_sec fuel 0%float 0 ;;
   emit PbarClose ;;;
   emit Release ;;;
   emit (PrintSummary saved out_dir interval))%run.

(** [main]: prompts, validation, directory creation, extraction. *)
Definition main (w : World) (fuel : nat) : Run unit :=
  (input_path <- ask w 0 "Enter input video path: " ;;
   out_dir <- ask w 1 "Enter output directory: " ;;
   interval_str <- ask w 2 "Enter time interval between frames (in seconds): " ;;
   interval <- parse_interval interval_str ;;
   emit (IsFile input_path) ;;;
   (if isfile w input_path then pure tt
    else stop (SystemExit (InputNotFound input_path))) ;;;
   emit (MakeDirs out_dir) ;;;
   (if makedirs w out_dir then pure tt else stop (Uncaught OSError)) ;;;
   extract w fuel input_path out_dir interval)%run.

(** ** Reading a run *)

(** The positions the decoder was asked to seek to, in order. *)
Definition seeks (tr : list Event) : list float :=
  flat_map (fun e => match e with SetPosMsec ms => [ms] | _ => [] end) tr.

(** The paths handed to [cv2.imwrite], in order. *)
Definition image_paths (tr : list Event) : list string :=
  flat_map (fun e => match e with ImWrite p _ => [p] | _ => [] end) tr.




(** An event that neither creates a directory, nor opens the video,
    nor writes a file. *)
Definition harmless (e : Event) : Prop :=
  match e with
  | Input _ | IsFile _ => True
  | _ => False
  end.

(** The clock after [k] rounds of the loop: [0.0] advanced [k] times by
    [interval], each sum rounded as the hardware rounds it. *)
Fixpoint clock (interval : float) (k : nat) : float :=
  match k with
  | O => 0%float
  | S k => (clock interval k + interval)%float
  end.

(** The exact value of a finite float, counted in units of [2^-1074]
    (the smallest positive binary64 value). *)
Definition ticks (x : float) : option Z :=
  match Prim2SF x with
  | S754_zero _ => Some 0
  | S754_finite s m e => Some (cond_Zopp s (Zpos m * 2 ^ (e + 1074)))
  | _ => None
  end.



(** The loop has arrived at the top of an iteration with the clock at
    [t] and [saved] frames counted, after the events [tr]: every
    iteration before this one decoded its frame, wrote it without an
    exception and found the clock not past the duration. *)
Inductive reaches (w : World) (out_dir : string) (interval duration_sec : float) :
  float -> Z -> list Event -> Prop :=
| reaches_start : reaches w out_dir interval duration_sec 0%float 0 []
| reaches_next t saved tr frame name r :
    reaches w out_dir interval duration_sec t saved tr ->
    read_at w (t * 1000)%float = Some frame ->
    filename t = inr name ->
    imwrite w (Py.path_join out_dir name) frame = r ->
    r <> ImWriteRaises ->
    (duration_sec <? t + interval)%float = false ->
    reaches w out_dir interval duration_sec (t + interval)%float (saved + 1)
      (tr ++ [SetPosMsec (t * 1000)%float; Read true;
              ImWrite (Py.path_join out_dir name) r; PbarUpdate]).

(** The session the prompts and checks of [main] let through: three
    lines of input, an interval that parses and is not [<= 0], an
    existing input file, a directory that can be made and a video that
    opens. *)
Definition accepted (w : World) (input_path out_dir : string) (interval : float) : Prop :=
  exists l1 l2 l3 rest,
    stdin w = l1 :: l2 :: l3 :: rest /\
    Py.strip l1 = input_path /\ Py.strip l2 = out_dir /\
    Py.float_of_string (Py.strip l3) = inr interval /\
    (interval <=? 0)%float = false /\
    isfile w input_path = true /\
    makedirs w out_dir = true /\
    isOpened w input_path = true.

(** The timestamp fields of the [k]-th sampled clock value. *)
Definition fields_at (interval : float) (k : nat) : Z * Z * Z * Z :=
  match timestamp (clock interval k) with
  | inr f => f
  | inl _ => (0, 0, 0, 0)
  end.

(** Every field fits the width it is padded to. *)
Definition fits (f : Z * Z * Z * Z) : Prop :=
  let '(hh, mm, ss, ms_int) := f in
  0 <= hh <= 99 /\ 0 <= mm <= 99 /\ 0 <= ss <= 99 /\ 0 <= ms_int <= 999.

Definition lex (c1 c2 : comparison) : comparison :=
  match c1 with
  | Eq => c2
  | _ => c1
  end.

(** Hours first, then minutes, seconds and milliseconds. *)
Definition fields_compare (f g : Z * Z * Z * Z) : comparison :=
  let '(h1, m1, s1, ms1) := f in
  let '(h2, m2, s2, ms2) := g in
  lex (h1 ?= h2) (lex (m1 ?= m2) (lex (s1 ?= s2) (ms1 ?= ms2))).

Definition fields_lt (f g : Z * Z * Z * Z) : Prop := fields_compare f g = Lt.

(** Order of file names: the order of their characters. *)
Definition name_lt (a b : string) : Prop := (a ?= b)%string = Lt.


(** ** Sessions used as examples *)

(** A video [in.mp4] with the given frame count and frame rate, whose
    every seek decodes, and a session that asks for [interval] into the
    directory [out]; [write] is what the image writer does. *)
Definition session (frames fps : float) (interval : string)
  (write : ImWriteResult) : World :=
  {| stdin := ["in.mp4"; "out"; interval]%string;
     isfile := fun p => String.eqb p "in.mp4";
     makedirs := fun _ => true;
     isOpened := fun _ => true;
     prop_fps := fps;
     prop_frame_count := frames;
     read_at := fun _ => Some [];
     imwrite := fun _ _ => write |}.

(** The integers from 0 up to [n], excluded. *)
Definition below (n : nat) : list Z := List.map Z.of_nat (List.seq 0 n).

Definition same_comparison (c1 c2 : comparison) : bool :=
  match c1, c2 with
  | Eq, Eq | Lt, Lt | Gt, Gt => true
  | _, _ => false
  end.

(** Whether, among the integers below [n], the texts padded to [width]
    all have [width] characters and compare as the integers do. *)
Definition padding_faithful (width n : nat) : bool :=
  let texts := List.map (fun a => (a, Py.format_0d width a)) (below n) in
  forallb (fun x =>
             Nat.eqb (String.length (snd x)) width &&
             forallb (fun y => same_comparison (snd x ?= snd y)%string (fst x ?= fst y))
               texts) texts.

(** The three prompts of [main]. *)
Definition prompts : list Event :=
  [Input "Enter input video path: "; Input "Enter output directory: ";
   Input "Enter time interval between frames (in seconds): "].

(** A stream that decodes at every position below [end_ms] and at no
    other, in a session that writes every image. *)
Definition stream_until (end_ms : float) (frames fps : float) (interval : string) : World :=
  {| stdin := ["in.mp4"; "out"; interval]%string;
     isfile := fun p => String.eqb p "in.mp4";
     makedirs := fun _ => true;
     isOpened := fun _ => true;
     prop_fps := fps;
     prop_frame_count := frames;
     read_at := fun ms => if (ms <? end_ms)%float then Some [] else None;
     imwrite := fun _ _ => Written |}.

(** ** Definitions for the further properties *)

(** The same world, each line of input already stripped. *)
Definition stripped_input (w : World) : World :=
  {| stdin := List.map Py.strip (stdin w); isfile := isfile w;
     makedirs := makedirs w; isOpened := isOpened w; prop_fps := prop_fps w;
     prop_frame_count := prop_frame_count w; read_at := read_at w;
     imwrite := imwrite w |}.

(** Whether, for the integers [a] below [n], the clock value of
    [step * a] whole seconds gets the hours, minutes and seconds of
    [step * a] and no milliseconds. *)
Definition whole_seconds_faithful (step : Z) (n : nat) : bool :=
  forallb (fun a =>
             let t := step * a in
             match timestamp (Py.float_of_Z t) with
             | inr (hh, mm, ss, ms_int) =>
                 (hh =? t / 3600) && (mm =? t mod 3600 / 60) &&
                 (ss =? t mod 60) && (ms_int =? 0)
             | inl _ => false
             end) (below n).

(** A session whose video file exists but does not open. *)
Definition unopenable : World :=
  {| stdin := [" in.mp4"; "out "; "2"]%string;
     isfile := fun _ => true;
     makedirs := fun _ => true;
     isOpened := fun _ => false;
     prop_fps := 30;
     prop_frame_count := 300;
     read_at := fun _ => Some [];
     imwrite := fun _ _ => Written |}.

(** * Properties *)

(** ** Facts about binary64 arithmetic *)

Lemma Prim2SF_nan : Prim2SF nan = S754_nan.
Proof. reflexivity. Qed.

Lemma Prim2SF_zero : Prim2SF 0 = S754_zero false.
Proof. reflexivity. Qed.

(** Adding NaN gives NaN. *)
Lemma add_nan_r (x : float) : (x + nan)%float = nan.
Proof.
  apply Prim2SF_inj. rewrite add_spec, Prim2SF_nan.
  unfold SF64add. destruct (Prim2SF x); reflexivity.
Qed.

(** Nothing is below NaN. *)
Lemma ltb_nan_r (x : float) : (x <? nan)%float = false.
Proof.
  rewrite ltb_spec, Prim2SF_nan. unfold SFltb.
  destruct (Prim2SF x); reflexivity.
Qed.

(** The first advance of the clock, [0.0 + x], compares as [x] does. *)
Lemma ltb_zero_add (d x : float) : (d <? 0 + x)%float = (d <? x)%float.
Proof.
  rewrite !ltb_spec, add_spec, Prim2SF_zero. unfold SF64add, SFltb.
  destruct (Prim2SF x) as [[|]| | |];
    destruct (Prim2SF d) as [[|]|[|] | |[|] ? ?]; reflexivity.
Qed.

Lemma some_inj {A : Type} (a b : A) : Some a = Some b -> a = b.
Proof. congruence. Qed.

Lemma digits2_size (p : positive) : digits2_pos p = Pos.size p.
Proof. induction p; simpl; congruence. Qed.

Lemma digits2_bounds (p : positive) :
  2 ^ (Zpos (digits2_pos p) - 1) <= Zpos p < 2 ^ Zpos (digits2_pos p).
Proof.
  rewrite digits2_size. split.
  - pose proof (Pos.size_le p) as H.
    assert (Hz : 2 ^ Zpos (Pos.size p) <= 2 * Zpos p).
    { rewrite <- Pos2Z.inj_pow. change (2 * Zpos p) with (Zpos p~0).
      apply Pos2Z.pos_le_pos. exact H. }
    replace (Zpos (Pos.size p)) with (Zpos (Pos.size p) - 1 + 1) in Hz by lia.
    rewrite Z.pow_add_r in Hz by lia. lia.
  - pose proof (Pos.size_gt p) as H. rewrite <- Pos2Z.inj_pow.
    apply Pos2Z.pos_lt_pos. exact H.
Qed.

(** A valid finite binary64 value: its exponent is at least [-1074], its
    mantissa has at most 53 bits, and exactly 53 unless the exponent is
    the least one. *)
Lemma bounded_inv (m : positive) (e : Z) :
  bounded prec emax m e = true ->
  -1074 <= e /\ Zpos m < 2 ^ 53 /\ (e = -1074 \/ 2 ^ 52 <= Zpos m).
Proof.
  unfold bounded, canonical_mantissa, fexp, SpecFloat.emin, prec, emax.
  intros H. apply andb_prop in H. destruct H as [H _]. apply Z.eqb_eq in H.
  pose proof (digits2_bounds m) as [Hlo Hhi].
  assert (Hd : Zpos (digits2_pos m) <= 53) by lia.
  split; [lia|]. split.
  - eapply Z.lt_le_trans; [exact Hhi|]. apply Z.pow_le_mono_r; lia.
  - destruct (Z.eq_dec e (-1074)) as [|Hne]; [now left|right].
    assert (Zpos (digits2_pos m) = 53) by lia.
    replace 52 with (Zpos (digits2_pos m) - 1) by lia. exact Hlo.
Qed.

Lemma finite_ticks_pos (m : positive) (e : Z) :
  bounded prec emax m e = true -> 0 < Zpos m * 2 ^ (e + 1074).
Proof.
  intros V. apply bounded_inv in V.
  apply Z.mul_pos_pos; [lia|apply Z.pow_pos_nonneg; lia].
Qed.

Lemma finite_lt (m1 m2 : positive) (e1 e2 : Z) :
  bounded prec emax m1 e1 = true -> bounded prec emax m2 e2 = true ->
  e1 < e2 -> Zpos m1 * 2 ^ (e1 + 1074) < Zpos m2 * 2 ^ (e2 + 1074).
Proof.
  intros H1 H2 Hlt.
  apply bounded_inv in H1. apply bounded_inv in H2.
  destruct H1 as (Ha & Hb & _). destruct H2 as (Hc & _ & [Hd|Hd]); [lia|].
  assert (P1 : 0 < 2 ^ (e1 + 1074)) by (apply Z.pow_pos_nonneg; lia).
  apply Z.lt_le_trans with (2 ^ 53 * 2 ^ (e1 + 1074)).
  - apply Z.mul_lt_mono_pos_r; lia.
  - apply Z.le_trans with (2 ^ 52 * 2 ^ (e2 + 1074)).
    + rewrite <- !Z.pow_add_r by lia. apply Z.pow_le_mono_r; lia.
    + apply Z.mul_le_mono_nonneg_r; [apply Z.pow_nonneg|]; lia.
Qed.

Lemma finite_compare (m1 m2 : positive) (e1 e2 : Z) :
  bounded prec emax m1 e1 = true -> bounded prec emax m2 e2 = true ->
  match e1 ?= e2 with
  | Lt => Lt
  | Gt => Gt
  | Eq => Pos.compare_cont Eq m1 m2
  end = (Zpos m1 * 2 ^ (e1 + 1074) ?= Zpos m2 * 2 ^ (e2 + 1074)).
Proof.
  intros H1 H2. destruct (Z.compare_spec e1 e2) as [He|He|He].
  - subst e2. change (Pos.compare_cont Eq m1 m2) with (Zpos m1 ?= Zpos m2).
    apply bounded_inv in H1. symmetry.
    assert (P1 : 0 < 2 ^ (e1 + 1074)) by (apply Z.pow_pos_nonneg; lia).
    destruct (Z.compare_spec (Zpos m1) (Zpos m2)) as [E|E|E].
    + rewrite E. apply Z.compare_refl.
    + apply Z.compare_lt_iff. apply Z.mul_lt_mono_pos_r; lia.
    + apply Z.compare_gt_iff. apply Z.mul_lt_mono_pos_r; lia.
  - symmetry. apply Z.compare_lt_iff. now apply finite_lt.
  - symmetry. apply Z.compare_gt_iff. now apply finite_lt.
Qed.

(** The float comparison [<] is the comparison of the exact values. *)
Lemma ltb_ticks (x y : float) (a b : Z) :
  ticks x = Some a -> ticks y = Some b -> (x <? y)%float = (a <? b).
Proof.
  unfold ticks. rewrite ltb_spec.
  pose proof (Prim2SF_valid x) as Vx. pose proof (Prim2SF_valid y) as Vy.
  destruct (Prim2SF x) as [sx|sx| |sx mx ex]; try discriminate;
  destruct (Prim2SF y) as [sy|sy| |sy my ey]; try discriminate;
  intros Ha Hb; apply some_inj in Ha, Hb; subst a b;
  unfold SFltb, SFcompare, valid_binary in *.
  - reflexivity.
  - pose proof (finite_ticks_pos _ _ Vy).
    destruct sy; unfold cond_Zopp; symmetry; [apply Z.ltb_ge|apply Z.ltb_lt]; lia.
  - pose proof (finite_ticks_pos _ _ Vx).
    destruct sx; unfold cond_Zopp; symmetry; [apply Z.ltb_lt|apply Z.ltb_ge]; lia.
  - pose proof (finite_ticks_pos _ _ Vx). pose proof (finite_ticks_pos _ _ Vy).
    pose proof (finite_compare mx my ex ey Vx Vy) as C.
    pose proof (finite_compare my mx ey ex Vy Vx) as C'.
    destruct sx, sy; unfold cond_Zopp.
    + unfold Z.ltb. rewrite Z.compare_opp, <- C'.
      rewrite (Z.compare_antisym ex ey).
      destruct (ex ?= ey); cbn [CompOpp]; try reflexivity.
      rewrite (Pos.compare_cont_antisym mx my Eq). reflexivity.
    + symmetry. apply Z.ltb_lt. lia.
    + symmetry. apply Z.ltb_ge. lia.
    + unfold Z.ltb. rewrite <- C. destruct (ex ?= ey); reflexivity.
Qed.

(** A number that is [> 0] is not [== 0]. *)
Lemma ltb_zero_nonzero (x : float) :
  (0 <? x)%float = true -> (x =? 0)%float = false.
Proof.
  rewrite ltb_spec, eqb_spec, Prim2SF_zero. unfold SFltb, SFeqb.
  destruct (Prim2SF x) as [s|s| |s m e]; try destruct s; cbn;
    intros H; try reflexivity; discriminate.
Qed.

(** ** Rounding to binary64, on the exact values *)

Lemma iter_pos_nat {A : Type} (f : A -> A) (p : positive) (x : A) :
  iter_pos f p x = Nat.iter (Pos.to_nat p) f x.
Proof.
  revert x. induction p as [p IH|p IH|]; intros x; cbn [iter_pos].
  - rewrite !IH, Pos2Nat.inj_xI.
    rewrite <- Nat.iter_add, <- Nat.iter_succ_r. f_equal. lia.
  - rewrite !IH, Pos2Nat.inj_xO.
    rewrite <- Nat.iter_add. f_equal. lia.
  - reflexivity.
Qed.

(** One shift to the right halves the mantissa. *)
Lemma shr_1_spec (q : Z) (b s : bool) :
  0 <= q ->
  shr_1 {| shr_m := q; shr_r := b; shr_s := s |}
  = {| shr_m := q / 2; shr_r := Z.odd q; shr_s := b || s |}.
Proof.
  intros Hq. destruct q as [|[p|p|]|p]; try lia; cbn [shr_1].
  - reflexivity.
  - f_equal. rewrite Pos2Z.inj_xI.
    apply (Z.div_unique_pos _ _ _ 1); lia.
  - f_equal. rewrite Pos2Z.inj_xO.
    apply (Z.div_unique_pos _ _ _ 0); lia.
  - reflexivity.
Qed.

(** [n] shifts divide by [2^n]; when nothing is lost the record says
    so. *)
Lemma shr_iter (m : Z) (n : nat) :
  0 <= m ->
  exists b s,
    Nat.iter n shr_1 {| shr_m := m; shr_r := false; shr_s := false |}
    = {| shr_m := m / 2 ^ Z.of_nat n; shr_r := b; shr_s := s |} /\
    (m mod 2 ^ Z.of_nat n = 0 -> b = false /\ s = false).
Proof.
  intros Hm. induction n as [|n (b & s & IH & Hex)].
  - exists false, false. cbn. rewrite Z.div_1_r. auto.
  - assert (P : 0 < 2 ^ Z.of_nat n) by (apply Z.pow_pos_nonneg; lia).
    exists (Z.odd (m / 2 ^ Z.of_nat n)), (b || s).
    rewrite Nat.iter_succ, IH.
    rewrite shr_1_spec by (apply Z.div_pos; lia).
    rewrite Nat2Z.inj_succ, Z.pow_succ_r by lia.
    split.
    + f_equal. rewrite Z.div_div by lia. f_equal. lia.
    + intros H0.
      assert (E : m = 2 ^ Z.of_nat n * 2 * (m / (2 * 2 ^ Z.of_nat n))).
      { pose proof (Z.div_mod m (2 * 2 ^ Z.of_nat n) ltac:(lia)). lia. }
      assert (M : m mod 2 ^ Z.of_nat n = 0).
      { rewrite E. rewrite <- Z.mul_assoc, Z.mul_comm. apply Z.mod_mul. lia. }
      destruct (Hex M) as [-> ->]. split; [|reflexivity].
      assert (Q : m / 2 ^ Z.of_nat n = 2 * (m / (2 * 2 ^ Z.of_nat n))).
      { rewrite E at 1. rewrite <- Z.mul_assoc, Z.mul_comm, Z.div_mul by lia. reflexivity. }
      rewrite Q, Z.odd_mul. reflexivity.
Qed.

Lemma fexp_eq (x : Z) : fexp prec emax x = Z.max (x - 53) (-1074).
Proof. reflexivity. Qed.

(** The number of bits of a positive number is determined by the
    powers of two around it. *)
Lemma digits2_unique (p : positive) (k : Z) :
  2 ^ (k - 1) <= Zpos p < 2 ^ k -> Zpos (digits2_pos p) = k.
Proof.
  intros [Hlo Hhi]. pose proof (digits2_bounds p) as [Dlo Dhi].
  assert (K : 0 < k).
  { destruct (Z.ltb_spec 0 k) as [|Hk]; [assumption|].
    assert (2 ^ k <= 2 ^ 0) by (destruct (Z.ltb_spec k 0);
      [rewrite Z.pow_neg_r by lia; cbn; lia|apply Z.pow_le_mono_r; lia]).
    cbn in *. lia. }
  destruct (Z.lt_trichotomy (Zpos (digits2_pos p)) k) as [H|[H|H]]; [|exact H|].
  - assert (2 ^ Zpos (digits2_pos p) <= 2 ^ (k - 1)) by (apply Z.pow_le_mono_r; lia).
    lia.
  - assert (2 ^ k <= 2 ^ (Zpos (digits2_pos p) - 1)) by (apply Z.pow_le_mono_r; lia).
    lia.
Qed.

Lemma shr_fexp_zero (E : Z) :
  -1074 <= E ->
  shr_fexp prec emax 0 E loc_Exact
  = ({| shr_m := 0; shr_r := false; shr_s := false |}, E).
Proof.
  intros HE. unfold shr_fexp. cbn [Zdigits2 shr_record_of_loc].
  rewrite fexp_eq. unfold shr.
  destruct (Z.max (0 + E - 53) (-1074) - E) eqn:Hn; try reflexivity. lia.
Qed.

(** A mantissa that is already canonical is not shifted. *)
Lemma shr_fexp_canonical (m : positive) (E : Z) :
  Z.max (Zpos (digits2_pos m) + E - 53) (-1074) <= E ->
  shr_fexp prec emax (Zpos m) E loc_Exact
  = ({| shr_m := Zpos m; shr_r := false; shr_s := false |}, E).
Proof.
  intros HE. unfold shr_fexp. cbn [Zdigits2 shr_record_of_loc].
  rewrite fexp_eq. unfold shr.
  destruct (Z.max (Zpos (digits2_pos m) + E - 53) (-1074) - E) eqn:Hn;
    try reflexivity. lia.
Qed.

(** A mantissa with too many bits is divided by a power of two. *)
Lemma shr_fexp_shift (m : positive) (e : Z) :
  let E := Z.max (Zpos (digits2_pos m) + e - 53) (-1074) in
  e < E ->
  exists b s,
    shr_fexp prec emax (Zpos m) e loc_Exact
    = ({| shr_m := Zpos m / 2 ^ (E - e); shr_r := b; shr_s := s |}, E) /\
    (Zpos m mod 2 ^ (E - e) = 0 -> b = false /\ s = false).
Proof.
  intros E HE. unfold shr_fexp. cbn [Zdigits2 shr_record_of_loc].
  rewrite fexp_eq. fold E. unfold shr.
  destruct (E - e) as [|n|n] eqn:Hn; try lia.
  rewrite iter_pos_nat.
  destruct (shr_iter (Zpos m) (Pos.to_nat n) ltac:(lia)) as (b & s & Hi & Hex).
  rewrite positive_nat_Z in Hi, Hex.
  exists b, s. split; [|exact Hex]. rewrite Hi. f_equal. lia.
Qed.

Lemma round_nearest_even_cases (q : Z) (b s : bool) :
  let z := round_nearest_even q
             (loc_of_shr_record {| shr_m := q; shr_r := b; shr_s := s |}) in
  (z = q \/ z = q + 1) /\ (b = false /\ s = false -> z = q).
Proof.
  destruct b, s; cbn; try destruct (Z.even q); split; auto; intros [? ?];
    discriminate.
Qed.

Lemma bounded_intro (m : positive) (e : Z) :
  Z.max (Zpos (digits2_pos m) + e - 53) (-1074) = e -> e <= 971 ->
  bounded prec emax m e = true.
Proof.
  intros Hc He. unfold bounded, canonical_mantissa.
  rewrite fexp_eq, Hc, Z.eqb_refl. apply Z.leb_le. exact He.
Qed.

(** Rounding a mantissa with too many bits: the quotient by the power
    of two that brings it to 53 bits, or the next integer, and the
    quotient itself when the division is exact. *)
Lemma bra_shift (m : positive) (e : Z) :
  let E := Z.max (Zpos (digits2_pos m) + e - 53) (-1074) in
  e < E ->
  exists z,
    (z = Zpos m / 2 ^ (E - e) \/ z = Zpos m / 2 ^ (E - e) + 1) /\
    (Zpos m mod 2 ^ (E - e) = 0 -> z = Zpos m / 2 ^ (E - e)) /\
    match binary_round_aux prec emax false (Zpos m) e loc_Exact with
    | S754_zero false => z = 0
    | S754_infinity false => 971 <= E
    | S754_finite false m' e' =>
        bounded prec emax m' e' = true /\
        (e' = E /\ Zpos m' = z \/ e' = E + 1 /\ 2 * Zpos m' = z)
    | _ => False
    end.
Proof.
  intros E HE.
  destruct (shr_fexp_shift m e HE) as (b & s & Hs & Hex). fold E in Hs, Hex.
  unfold binary_round_aux. rewrite Hs. cbn [shr_m].
  set (q := Zpos m / 2 ^ (E - e)) in *.
  destruct (round_nearest_even_cases q b s) as [Hz Hz0].
  set (z := round_nearest_even q _) in *. cbv zeta in Hz, Hz0.
  exists z. split; [exact Hz|]. split; [intros H0; apply Hz0; auto|].
  (* bounds on the quotient *)
  pose proof (digits2_bounds m) as [Dlo Dhi].
  set (d := Zpos (digits2_pos m)) in *.
  assert (Pn : 0 < 2 ^ (E - e)) by (apply Z.pow_pos_nonneg; lia).
  assert (Q0 : 0 <= q) by (apply Z.div_pos; lia).
  assert (Q1 : q < 2 ^ 53).
  { apply Z.div_lt_upper_bound; [lia|].
    eapply Z.lt_le_trans; [exact Dhi|].
    rewrite <- Z.pow_add_r by lia. apply Z.pow_le_mono_r; lia. }
  assert (Q2 : -1074 < E -> 2 ^ 52 <= q).
  { intros HE'. apply Z.div_le_lower_bound; [lia|].
    eapply Z.le_trans; [|exact Dlo].
    rewrite <- Z.pow_add_r by lia. apply Z.pow_le_mono_r; lia. }
  assert (HEm : -1074 <= E) by (unfold E; lia).
  destruct z as [|z'|z'] eqn:Ez; try lia.
  - rewrite shr_fexp_zero by exact HEm. cbn [shr_m]. reflexivity.
  - pose proof (digits2_bounds z') as [Zlo Zhi].
    destruct (Z.ltb_spec (Zpos z') (2 ^ 53)) as [Hlt|Hge].
    + assert (Dz : Zpos (digits2_pos z') <= 53).
      { destruct (Z.leb_spec (Zpos (digits2_pos z')) 53) as [|Hgt]; [assumption|].
        assert (2 ^ 53 <= 2 ^ (Zpos (digits2_pos z') - 1))
          by (apply Z.pow_le_mono_r; lia). lia. }
      rewrite shr_fexp_canonical by lia. cbn [shr_m].
      destruct (Z.leb_spec E (971 - 0)) as [Hle|Hgt];
        change (emax - prec) with 971; destruct (E <=? 971) eqn:Hc;
        try (apply Z.leb_le in Hc); try (apply Z.leb_gt in Hc); try lia.
      * split; [|left; split; reflexivity].
        apply bounded_intro; [|exact Hc].
        destruct (Z.eq_dec E (-1074)) as [->|Hne]; [lia|].
        assert (Zpos (digits2_pos z') = 53)
          by (apply digits2_unique; split; [change (53 - 1) with 52|]; lia).
        lia.
    + assert (Hz53 : z' = 9007199254740992%positive) by lia.
      clear Zlo Zhi Hge. subst z'.
      destruct (shr_fexp_shift 9007199254740992 E) as (b' & s' & Hs' & _);
        [change (Zpos (digits2_pos 9007199254740992)) with 54; lia|].
      change (Zpos (digits2_pos 9007199254740992)) with 54 in Hs'.
      replace (Z.max (54 + E - 53) (-1074)) with (E + 1) in Hs' by lia.
      replace (E + 1 - E) with 1 in Hs' by lia.
      rewrite Hs'. cbn [shr_m].
      change (Zpos 9007199254740992 / 2 ^ 1) with (Zpos 4503599627370496).
      change (emax - prec) with 971.
      destruct (Z.leb_spec (E + 1) 971) as [Hle|Hgt]; [|lia].
      split.
      * apply bounded_intro; [|exact Hle].
        change (Zpos (digits2_pos 4503599627370496)) with 53. lia.
      * right. split; reflexivity.
Qed.

(** A mantissa that needs no shift is kept. *)
Lemma bra_canonical (m : positive) (e : Z) :
  Z.max (Zpos (digits2_pos m) + e - 53) (-1074) <= e ->
  binary_round_aux prec emax false (Zpos m) e loc_Exact
  = if e <=? 971 then S754_finite false m e else S754_infinity false.
Proof.
  intros HE. unfold binary_round_aux.
  rewrite shr_fexp_canonical by exact HE. cbn [shr_m loc_of_shr_record round_nearest_even].
  rewrite shr_fexp_canonical by exact HE. reflexivity.
Qed.

Lemma iter_xO (m d : positive) : Zpos (Pos.iter xO m d) = Zpos m * 2 ^ Zpos d.
Proof.
  induction d as [|d IH] using Pos.peano_ind.
  - cbn [Pos.iter]. rewrite Pos2Z.inj_xO. change (2 ^ 1) with 2. lia.
  - rewrite Pos.iter_succ, Pos2Z.inj_xO, IH, Pos2Z.inj_succ, Z.pow_succ_r by lia.
    lia.
Qed.

Lemma digits2_shift (m : positive) (k : Z) (p : positive) :
  0 <= k -> Zpos p = Zpos m * 2 ^ k ->
  Zpos (digits2_pos p) = Zpos (digits2_pos m) + k.
Proof.
  intros Hk Hp. pose proof (digits2_bounds m) as [Dlo Dhi].
  assert (P : 0 < 2 ^ k) by (apply Z.pow_pos_nonneg; lia).
  apply digits2_unique. rewrite Hp. split.
  - replace (Zpos (digits2_pos m) + k - 1) with (Zpos (digits2_pos m) - 1 + k) by lia.
    rewrite Z.pow_add_r by lia. apply Z.mul_le_mono_nonneg_r; lia.
  - rewrite Z.pow_add_r by lia. apply Z.mul_lt_mono_pos_r; lia.
Qed.

Lemma log2_ticks (m : positive) (k : Z) :
  0 <= k -> Z.log2 (Zpos m * 2 ^ k) = Zpos (digits2_pos m) - 1 + k.
Proof.
  intros Hk. pose proof (digits2_bounds m) as [Dlo Dhi].
  assert (P : 0 < 2 ^ k) by (apply Z.pow_pos_nonneg; lia).
  apply Z.log2_unique; [lia|]. split.
  - rewrite Z.pow_add_r by lia. apply Z.mul_le_mono_nonneg_r; lia.
  - replace (Z.succ (Zpos (digits2_pos m) - 1 + k)) with (Zpos (digits2_pos m) + k) by lia.
    rewrite Z.pow_add_r by lia. apply Z.mul_lt_mono_pos_r; lia.
Qed.

(** Rounding [m * 2^e] to binary64, in units of [2^-1074]: with [g]
    the number of bits beyond the 53 that are kept, the result is the
    multiple of [2^g] just below the exact value or the next one, and
    the exact value itself when it is such a multiple. *)
Lemma binary_round_ticks (m : positive) (e : Z) :
  -1074 <= e ->
  let V := Zpos m * 2 ^ (e + 1074) in
  let g := Z.max (Z.log2 V - 52) 0 in
  exists R,
    (R = V / 2 ^ g * 2 ^ g \/ R = (V / 2 ^ g + 1) * 2 ^ g) /\
    (V mod 2 ^ g = 0 -> R = V) /\
    match binary_round prec emax false m e with
    | S754_zero false => R = 0
    | S754_infinity false => 971 + 1074 <= g
    | S754_finite false m' e' =>
        bounded prec emax m' e' = true /\ Zpos m' * 2 ^ (e' + 1074) = R
    | _ => False
    end.
Proof.
  intros He V g.
  set (d := Zpos (digits2_pos m)).
  set (E := Z.max (d + e - 53) (-1074)).
  assert (Hg : g = E + 1074).
  { unfold g, V. rewrite log2_ticks by lia. fold d. unfold E. lia. }
  assert (Pg : 0 < 2 ^ g) by (apply Z.pow_pos_nonneg; lia).
  unfold binary_round. rewrite fexp_eq. fold d E. unfold shl_align.
  destruct (E - e) as [|n|n] eqn:Hn.
  - (* already aligned *)
    assert (E = e) by lia.
    rewrite bra_canonical by (fold d E; lia).
    exists V. assert (V mod 2 ^ g = 0).
    { unfold V. replace (e + 1074) with g by lia. apply Z.mod_mul. lia. }
    split; [left; pose proof (Z_div_exact_full_2 V (2 ^ g) ltac:(lia) ltac:(assumption)); lia|].
    split; [reflexivity|].
    destruct (Z.leb_spec e 971); [|lia].
    split; [apply bounded_intro; fold d E; lia|reflexivity].
  - (* too many bits *)
    assert (HE : e < E) by lia.
    destruct (bra_shift m e HE) as (z & Hz & Hz0 & Hr). fold d E in Hz, Hz0, Hr.
    assert (Pn : 0 < 2 ^ (E - e)) by (apply Z.pow_pos_nonneg; lia).
    assert (Hq : V / 2 ^ g = Zpos m / 2 ^ (E - e)).
    { unfold V. replace g with (E - e + (e + 1074)) by lia.
      rewrite (Z.pow_add_r 2 (E - e) (e + 1074)) by lia.
      apply Z.div_mul_cancel_r; [lia|].
      apply Z.pow_nonzero; lia. }
    assert (Hm : V mod 2 ^ g = 0 -> Zpos m mod 2 ^ (E - e) = 0).
    { intros H0. unfold V in H0. replace g with (E - e + (e + 1074)) in H0 by lia.
      rewrite (Z.pow_add_r 2 (E - e) (e + 1074)) in H0 by lia.
      rewrite Z.mul_mod_distr_r in H0
        by (try apply Z.pow_nonzero; lia).
      assert (P : 0 < 2 ^ (e + 1074)) by (apply Z.pow_pos_nonneg; lia).
      nia. }
    exists (z * 2 ^ g). rewrite Hq.
    split; [destruct Hz as [->| ->]; auto|].
    split.
    { intros H0. rewrite (Hz0 (Hm H0)), <- Hq.
      pose proof (Z_div_exact_full_2 V (2 ^ g) ltac:(lia) H0). lia. }
    destruct (binary_round_aux prec emax false (Zpos m) e loc_Exact)
      as [[|]|[|]| |[|] m' e']; try contradiction.
    + now rewrite Hr.
    + lia.
    + destruct Hr as [Hb [[-> <-]|[-> <-]]]; (split; [exact Hb|]).
      * now rewrite <- Hg.
      * replace (E + 1 + 1074) with (g + 1) by lia.
        rewrite (Z.pow_add_r 2 g 1) by lia. lia.
  - (* fewer bits than the exponent allows: align first *)
    assert (HE : E < e) by lia.
    pose proof (iter_xO m n) as Hm.
    assert (Dm : Zpos (digits2_pos (Pos.iter xO m n)) = d + Zpos n)
      by (apply digits2_shift; [lia|exact Hm]).
    rewrite bra_canonical by (rewrite Dm; lia).
    exists V. assert (V mod 2 ^ g = 0).
    { unfold V. replace (e + 1074) with (e - E + g) by lia.
      rewrite (Z.pow_add_r 2 (e - E) g), Z.mul_assoc by lia. apply Z.mod_mul. lia. }
    split; [left; pose proof (Z_div_exact_full_2 V (2 ^ g) ltac:(lia) ltac:(assumption)); lia|].
    split; [reflexivity|].
    destruct (Z.leb_spec E 971); [|lia].
    split; [apply bounded_intro; rewrite ?Dm; lia|].
    rewrite Hm. unfold V. replace (e + 1074) with (Zpos n + (E + 1074)) by lia.
    rewrite (Z.pow_add_r 2 (Zpos n) (E + 1074)) by lia. lia.
Qed.

(** ** Exact values of floats *)

(** A float with a positive exact value is a valid positive finite
    number. *)
Lemma ticks_pos_inv (x : float) (a : Z) :
  ticks x = Some a -> 0 < a ->
  exists m e, Prim2SF x = S754_finite false m e /\
              bounded prec emax m e = true /\ a = Zpos m * 2 ^ (e + 1074).
Proof.
  unfold ticks. pose proof (Prim2SF_valid x) as V.
  destruct (Prim2SF x) as [s|s| |s m e]; try discriminate;
    intros H; apply some_inj in H; subst a; intros Ha; [lia|].
  pose proof (finite_ticks_pos m e V).
  destruct s; unfold cond_Zopp in Ha; [lia|].
  exists m, e. auto.
Qed.

Lemma ticks_finite (m : positive) (e : Z) (x : float) :
  Prim2SF x = S754_finite false m e -> ticks x = Some (Zpos m * 2 ^ (e + 1074)).
Proof. unfold ticks. now intros ->. Qed.

(** What is [> 0]: a positive number or [+inf]. *)
Lemma pos_cases (x : float) :
  (0 <? x)%float = true ->
  x = infinity \/ exists a, ticks x = Some a /\ 0 < a.
Proof.
  rewrite ltb_spec, Prim2SF_zero. unfold SFltb, ticks.
  pose proof (Prim2SF_valid x) as V.
  destruct (Prim2SF x) as [s|s| |s m e] eqn:Hx; cbn; try discriminate.
  - destruct s; [discriminate|]. intros _. left.
    apply Prim2SF_inj. rewrite Hx. reflexivity.
  - destruct s; [discriminate|]. intros _. right.
    exists (Zpos m * 2 ^ (e + 1074)). split; [reflexivity|].
    now apply finite_ticks_pos.
Qed.

Lemma ticks_zero : ticks 0 = Some 0.
Proof. reflexivity. Qed.



(** ** The sum of two positive numbers *)

Lemma shl_align_ticks (m : positive) (e ez : Z) :
  ez <= e -> -1074 <= ez ->
  Zpos (fst (shl_align m e ez)) * 2 ^ (ez + 1074) = Zpos m * 2 ^ (e + 1074).
Proof.
  intros Hle Hz. unfold shl_align.
  destruct (ez - e) as [|n|n] eqn:Hn; cbn [fst]; try lia.
  - replace ez with e by lia. reflexivity.
  - rewrite iter_xO. replace (e + 1074) with (Zpos n + (ez + 1074)) by lia.
    rewrite (Z.pow_add_r 2 (Zpos n) (ez + 1074)) by lia. lia.
Qed.

(** The sum of two positive numbers, rounded: in units of [2^-1074],
    the multiple of [2^g] just below the exact sum or the next one,
    where [g] counts the bits of the sum beyond 53. *)
Lemma add_ticks_pos (x y : float) (a b : Z) :
  ticks x = Some a -> ticks y = Some b -> 0 < a -> 0 < b ->
  let V := a + b in
  let g := Z.max (Z.log2 V - 52) 0 in
  exists R,
    (R = V / 2 ^ g * 2 ^ g \/ R = (V / 2 ^ g + 1) * 2 ^ g) /\
    (V mod 2 ^ g = 0 -> R = V) /\
    ((x + y)%float = infinity \/ ticks (x + y) = Some R).
Proof.
  intros Hx Hy Ha Hb V g.
  destruct (ticks_pos_inv x a Hx Ha) as (mx & ex & Ex & Bx & Ea).
  destruct (ticks_pos_inv y b Hy Hb) as (my & ey & Ey & By & Eb).
  pose proof (bounded_inv _ _ Bx) as (Lx & _). pose proof (bounded_inv _ _ By) as (Ly & _).
  pose proof (add_spec x y) as S. rewrite Ex, Ey in S.
  unfold SF64add, SFadd in S. cbn [cond_Zopp] in S. cbv zeta in S.
  set (ez := Z.min ex ey) in *.
  pose proof (shl_align_ticks mx ex ez ltac:(lia) ltac:(lia)) as Ax.
  pose proof (shl_align_ticks my ey ez ltac:(lia) ltac:(lia)) as Ay.
  set (px := fst (shl_align mx ex ez)) in *.
  set (py := fst (shl_align my ey ez)) in *.
  change (Zpos px + Zpos py) with (Zpos (px + py)) in S.
  cbn [binary_normalize] in S.
  destruct (binary_round_ticks (px + py) ez ltac:(lia)) as (R & HR & HR0 & Hres).
  assert (EV : Zpos (px + py) * 2 ^ (ez + 1074) = V).
  { unfold V. rewrite Pos2Z.inj_add. lia. }
  rewrite EV in HR, HR0, Hres. fold g in HR, HR0, Hres.
  exists R. split; [exact HR|]. split; [exact HR0|].
  destruct (binary_round prec emax false (px + py) ez) as [[|]|[|]| |[|] m' e'];
    try contradiction.
  - right. unfold ticks. rewrite S. now rewrite Hres.
  - left. apply Prim2SF_inj. rewrite S. reflexivity.
  - right. unfold ticks. rewrite S. destruct Hres as [_ <-]. reflexivity.
Qed.

(** A float is not above the multiple of [2^g] just below any exact
    value it is not above. *)
Lemma bracket_lower (m : positive) (e : Z) (V : Z) :
  bounded prec emax m e = true ->
  Zpos m * 2 ^ (e + 1074) <= V ->
  let g := Z.max (Z.log2 V - 52) 0 in
  Zpos m * 2 ^ (e + 1074) <= V / 2 ^ g * 2 ^ g.
Proof.
  intros B Hle g. pose proof (bounded_inv _ _ B) as (Le & Lm & _).
  assert (Pg : 0 < 2 ^ g) by (apply Z.pow_pos_nonneg; lia).
  assert (Pe : 0 < 2 ^ (e + 1074)) by (apply Z.pow_pos_nonneg; lia).
  destruct (Z.le_gt_cases g (e + 1074)) as [Hge|Hlt].
  - replace (e + 1074) with (e + 1074 - g + g) in * by lia.
    rewrite (Z.pow_add_r 2 (e + 1074 - g) g) in * by lia.
    rewrite Z.mul_assoc in *.
    apply Z.mul_le_mono_nonneg_r; [lia|].
    apply Z.div_le_lower_bound; [lia|]. lia.
  - assert (Hg : g = Z.log2 V - 52) by lia.
    assert (HV : 0 < V) by lia.
    pose proof (Z.log2_spec V HV) as [Llo _].
    apply Z.le_trans with (2 ^ Z.log2 V).
    + apply Z.le_trans with (2 ^ 53 * 2 ^ (e + 1074)).
      * apply Z.mul_le_mono_nonneg_r; lia.
      * rewrite <- Z.pow_add_r by lia. apply Z.pow_le_mono_r; lia.
    + replace (Z.log2 V) with (Z.log2 V - g + g) at 1 by lia.
      rewrite (Z.pow_add_r 2 (Z.log2 V - g) g) by lia.
      apply Z.mul_le_mono_nonneg_r; [lia|].
      apply Z.div_le_lower_bound; [lia|].
      rewrite Z.mul_comm, <- Z.pow_add_r by lia.
      replace (Z.log2 V - g + g) with (Z.log2 V) by lia. exact Llo.
Qed.

(** Adding a positive number to a positive number does not make it
    smaller. *)
Lemma add_pos_ge (x y : float) (a b : Z) :
  ticks x = Some a -> ticks y = Some b -> 0 < a -> 0 < b ->
  (x + y)%float = infinity \/ exists r, ticks (x + y) = Some r /\ a <= r.
Proof.
  intros Hx Hy Ha Hb.
  destruct (add_ticks_pos x y a b Hx Hy Ha Hb) as (R & HR & _ & [Hi|Hr]);
    [now left|right].
  exists R. split; [exact Hr|].
  destruct (ticks_pos_inv x a Hx Ha) as (mx & ex & _ & Bx & ->).
  pose proof (bracket_lower mx ex (Zpos mx * 2 ^ (ex + 1074) + b) Bx ltac:(lia)) as L.
  cbv zeta in L.
  set (V := Zpos mx * 2 ^ (ex + 1074) + b) in *.
  set (g := Z.max (Z.log2 V - 52) 0) in *.
  assert (Pg : 0 < 2 ^ g) by (apply Z.pow_pos_nonneg; lia).
  destruct HR as [->| ->]; [exact L|]. lia.
Qed.

Lemma add_infinity_r (x : float) (a : Z) :
  ticks x = Some a -> (x + infinity)%float = infinity.
Proof.
  intros Hx. apply Prim2SF_inj. rewrite add_spec. unfold ticks in Hx.
  change (Prim2SF infinity) with (S754_infinity false).
  destruct (Prim2SF x); try discriminate; reflexivity.
Qed.

Lemma add_infinity_l (y : float) :
  (0 <? y)%float = true -> (infinity + y)%float = infinity.
Proof.
  intros Hy. apply Prim2SF_inj. rewrite add_spec.
  rewrite ltb_spec, Prim2SF_zero in Hy. unfold SFltb in Hy.
  change (Prim2SF infinity) with (S754_infinity false).
  destruct (Prim2SF y) as [s|s| |s m e]; try destruct s; try discriminate;
    reflexivity.
Qed.

(** The clock stays positive once it has advanced. *)
Lemma add_pos (x i : float) :
  (0 <? x)%float = true -> (0 <? i)%float = true -> (0 <? x + i)%float = true.
Proof.
  intros Hx Hi.
  destruct (pos_cases x Hx) as [->|(a & Ta & Pa)];
    [now rewrite add_infinity_l|].
  destruct (pos_cases i Hi) as [->|(b & Tb & Pb)];
    [now rewrite (add_infinity_r x a Ta)|].
  destruct (add_pos_ge x i a b Ta Tb Pa Pb) as [->|(r & Tr & Hr)]; [reflexivity|].
  rewrite (ltb_ticks 0 (x + i) 0 r ticks_zero Tr). apply Z.ltb_lt. lia.
Qed.



(** With a positive interval the clock is positive after the first
    round, and what it is past it stays past. *)
Lemma clock_pos (i : float) (k : nat) :
  (0 <? i)%float = true -> (0 <? clock i (S k))%float = true.
Proof.
  intros Hi. induction k as [|k IH].
  - cbn [clock]. now rewrite ltb_zero_add.
  - change (clock i (S (S k))) with (clock i (S k) + i)%float.
    now apply add_pos.
Qed.


(** ** The runtime's operations on exact values *)

(** A float with an exact value that is not negative is a zero or a
    valid positive finite number. *)
Lemma ticks_nonneg_inv (x : float) (X : Z) :
  ticks x = Some X -> 0 <= X ->
  (X = 0 /\ exists s, Prim2SF x = S754_zero s) \/
  (0 < X /\ exists m e, Prim2SF x = S754_finite false m e /\
                        bounded prec emax m e = true /\
                        X = Zpos m * 2 ^ (e + 1074)).
Proof.
  intros Hx HX. destruct (Z.eq_dec X 0) as [->|Hne].
  - left. split; [reflexivity|]. unfold ticks in Hx.
    pose proof (Prim2SF_valid x) as V.
    destruct (Prim2SF x) as [s|s| |s m e]; try discriminate; [now exists s|].
    apply some_inj in Hx. pose proof (finite_ticks_pos m e V).
    destruct s; unfold cond_Zopp in Hx; lia.
  - right. split; [lia|]. apply ticks_pos_inv; [exact Hx|lia].
Qed.

(** [int] on a number that is not negative: the whole part. *)
Lemma int_ticks (x : float) (X : Z) :
  ticks x = Some X -> 0 <= X -> Py.int x = inr (X / 2 ^ 1074).
Proof.
  intros Hx HX.
  destruct (ticks_nonneg_inv x X Hx HX) as [[-> [s Hs]]|(HX' & m & e & Hs & B & ->)];
    unfold Py.int; rewrite Hs; [reflexivity|].
  unfold ret, cond_Zopp. f_equal.
  pose proof (bounded_inv _ _ B) as (Le & _).
  destruct (Z.le_gt_cases 0 e) as [He|He].
  - rewrite Z.shiftl_mul_pow2 by lia.
    rewrite (Z.pow_add_r 2 e 1074), Z.mul_assoc by lia.
    rewrite Z.div_mul; [reflexivity|]. apply Z.pow_nonzero; lia.
  - rewrite Z.shiftl_div_pow2 by lia.
    replace 1074 with (- e + (e + 1074)) at 2 by lia.
    rewrite (Z.pow_add_r 2 (- e) (e + 1074)) by lia.
    rewrite Z.div_mul_cancel_r; [reflexivity| |]; apply Z.pow_nonzero; lia.
Qed.

(** A result of rounding to the format is read back as it is. *)
Lemma ticks_SF2Prim (m : positive) (e : Z) :
  bounded prec emax m e = true ->
  ticks (SF2Prim (S754_finite false m e)) = Some (Zpos m * 2 ^ (e + 1074)).
Proof.
  intros B. unfold ticks. rewrite Prim2SF_SF2Prim by exact B. reflexivity.
Qed.

(** An exact value that fits the format is kept by rounding. *)
Lemma binary_round_exact (m : positive) (e : Z) :
  -1074 <= e ->
  Zpos m * 2 ^ (e + 1074) < 2 ^ 2000 ->
  (Zpos m * 2 ^ (e + 1074))
    mod 2 ^ Z.max (Z.log2 (Zpos m * 2 ^ (e + 1074)) - 52) 0 = 0 ->
  exists m' e',
    binary_round prec emax false m e = S754_finite false m' e' /\
    bounded prec emax m' e' = true /\
    Zpos m' * 2 ^ (e' + 1074) = Zpos m * 2 ^ (e + 1074).
Proof.
  intros He Hlt H0.
  destruct (binary_round_ticks m e He) as (R & _ & HR0 & Hres).
  cbv zeta in HR0. specialize (HR0 H0). subst R.
  assert (P : 0 < Zpos m * 2 ^ (e + 1074))
    by (apply Z.mul_pos_pos; [lia|apply Z.pow_pos_nonneg; lia]).
  destruct (binary_round prec emax false m e) as [[|]|[|]| |[|] m' e'];
    try contradiction.
  - lia.
  - exfalso.
    assert (Z.log2 (Zpos m * 2 ^ (e + 1074)) < 2000)
      by (apply Z.log2_lt_pow2; lia).
    lia.
  - exists m', e'. destruct Hres as [B E]. auto.
Qed.

(** [float(n)] for a natural number below [2^53] is exact. *)
Lemma float_of_Z_ticks (n : Z) :
  0 <= n < 2 ^ 53 -> ticks (Py.float_of_Z n) = Some (n * 2 ^ 1074).
Proof.
  intros Hn. unfold Py.float_of_Z.
  destruct n as [|p|p]; try lia; [reflexivity|].
  cbn [binary_normalize].
  destruct (binary_round_exact p 0) as (m' & e' & Hr & B & E).
  - lia.
  - change (0 + 1074) with 1074.
    apply Z.lt_le_trans with (2 ^ 53 * 2 ^ 1074); [|vm_compute; discriminate].
    apply Z.mul_lt_mono_pos_r; [reflexivity|lia].
  - change (0 + 1074) with 1074.
    rewrite Z.log2_mul_pow2 by lia.
    assert (L : Z.log2 (Zpos p) < 53) by (apply Z.log2_lt_pow2; lia).
    pose proof (Z.log2_nonneg (Zpos p)) as L0.
    set (g := Z.max (1074 + Z.log2 (Zpos p) - 52) 0).
    replace 1074 with (1074 - g + g) at 1 by lia.
    rewrite (Z.pow_add_r 2 (1074 - g) g), Z.mul_assoc by lia.
    apply Z.mod_mul. apply Z.pow_nonzero; lia.
  - rewrite Hr, ticks_SF2Prim by exact B. now rewrite E.
Qed.

(** A multiple of [2^a] below [2^(53+a)] fits the format. *)
Lemma exact_of_grid (V a : Z) :
  0 <= a -> 0 < V -> V mod 2 ^ a = 0 -> V < 2 ^ (53 + a) ->
  V mod 2 ^ Z.max (Z.log2 V - 52) 0 = 0.
Proof.
  intros Ha HV Hm Hlt.
  assert (L : Z.log2 V < 53 + a) by (apply Z.log2_lt_pow2; lia).
  pose proof (Z.log2_nonneg V) as L0.
  set (g := Z.max (Z.log2 V - 52) 0).
  assert (E : V = 2 ^ a * (V / 2 ^ a))
    by (apply Z_div_exact_full_2; [apply Z.pow_nonzero; lia|exact Hm]).
  rewrite E. replace a with (a - g + g) at 1 by lia.
  rewrite (Z.pow_add_r 2 (a - g) g) by lia.
  rewrite (Z.mul_comm (2 ^ (a - g))), <- Z.mul_assoc, Z.mul_comm.
  apply Z.mod_mul. apply Z.pow_nonzero; lia.
Qed.

(** The difference of two numbers, when it fits the format, is exact. *)
Lemma sub_ticks (x y : float) (X Y a : Z) :
  ticks x = Some X -> ticks y = Some Y -> 0 <= Y <= X -> X < 2 ^ 2000 ->
  0 <= a -> (X - Y) mod 2 ^ a = 0 -> X - Y < 2 ^ (53 + a) ->
  ticks (x - y) = Some (X - Y).
Proof.
  intros Hx Hy HY HX Ha Hm Hlt.
  pose proof (sub_spec x y) as S. unfold SF64sub in S.
  destruct (ticks_nonneg_inv y Y Hy ltac:(lia))
    as [[-> [sy Ey]]|(HY' & my & ey & Ey & By & EY)];
  destruct (ticks_nonneg_inv x X Hx ltac:(lia))
    as [[-> [sx Ex]]|(HX' & mx & ex & Ex & Bx & EX)]; try lia;
    rewrite Ex, Ey in S.
  - unfold ticks. rewrite S. destruct sx, sy; reflexivity.
  - unfold ticks. rewrite S. cbn [SFsub cond_Zopp]. rewrite EX. f_equal. lia.
  - pose proof (bounded_inv _ _ Bx) as (Lx & _).
    pose proof (bounded_inv _ _ By) as (Ly & _).
    unfold SFsub in S. cbn [cond_Zopp] in S. cbv zeta in S.
    set (ez := Z.min ex ey) in *.
    pose proof (shl_align_ticks mx ex ez ltac:(lia) ltac:(lia)) as Ax.
    pose proof (shl_align_ticks my ey ez ltac:(lia) ltac:(lia)) as Ay.
    set (px := fst (shl_align mx ex ez)) in *.
    set (py := fst (shl_align my ey ez)) in *.
    assert (Pz : 0 < 2 ^ (ez + 1074)) by (apply Z.pow_pos_nonneg; lia).
    assert (EV : (Zpos px - Zpos py) * 2 ^ (ez + 1074) = X - Y) by lia.
    destruct (Zpos px - Zpos py) as [|p|p] eqn:Hp.
    + unfold ticks. rewrite S. cbn. f_equal. lia.
    + cbn [binary_normalize] in S.
      destruct (binary_round_exact p ez) as (m' & e' & Hr & B & E).
      * lia.
      * rewrite EV. lia.
      * rewrite EV. apply (exact_of_grid _ a); lia.
      * unfold ticks. rewrite S, Hr. rewrite E, EV. reflexivity.
    + exfalso. assert (Zneg p * 2 ^ (ez + 1074) < 0) by (apply Z.mul_neg_pos; lia).
      lia.
Qed.

(** [fmod] of a number that is not negative by a positive one: the
    exact remainder. *)
Lemma fmod_ticks (x y : float) (X Y : Z) :
  ticks x = Some X -> ticks y = Some Y -> 0 <= X < 2 ^ 2000 -> 0 < Y ->
  ticks (Py.fmod x y) = Some (X mod Y).
Proof.
  intros Hx Hy [HX HX2] HY.
  destruct (ticks_pos_inv y Y Hy HY) as (my & ey & Ey & By & EY).
  destruct (ticks_nonneg_inv x X Hx HX)
    as [[-> [sx Ex]]|(HX' & mx & ex & Ex & Bx & EX)];
    unfold Py.fmod; rewrite Ex, Ey.
  - rewrite Hx, Z.mod_0_l by lia. reflexivity.
  - pose proof (bounded_inv _ _ Bx) as (Lx & Mx & _).
    pose proof (bounded_inv _ _ By) as (Ly & My & _).
    cbv zeta. set (e := Z.min ex ey).
    rewrite !Z.shiftl_mul_pow2 by lia.
    set (a := Zpos mx * 2 ^ (ex - e)). set (b := Zpos my * 2 ^ (ey - e)).
    assert (Pa : 0 < 2 ^ (ex - e)) by (apply Z.pow_pos_nonneg; lia).
    assert (Pb : 0 < 2 ^ (ey - e)) by (apply Z.pow_pos_nonneg; lia).
    assert (Pe : 0 < 2 ^ (e + 1074)) by (apply Z.pow_pos_nonneg; lia).
    assert (Ha : 0 < a) by (unfold a; lia). assert (Hb : 0 < b) by (unfold b; lia).
    rewrite Z.rem_mod_nonneg by lia. cbn [cond_Zopp].
    assert (EA : a * 2 ^ (e + 1074) = X).
    { unfold a. rewrite EX, <- Z.mul_assoc, <- Z.pow_add_r by lia.
      do 2 f_equal. lia. }
    assert (EB : b * 2 ^ (e + 1074) = Y).
    { unfold b. rewrite EY, <- Z.mul_assoc, <- Z.pow_add_r by lia.
      do 2 f_equal. lia. }
    assert (ER : (a mod b) * 2 ^ (e + 1074) = X mod Y).
    { rewrite <- EA, <- EB. rewrite Z.mul_mod_distr_r by lia. reflexivity. }
    pose proof (Z.mod_pos_bound a b Hb) as [R0 R1].
    assert (R2 : a mod b <= a) by (apply Z.mod_le; lia).
    assert (R3 : a mod b < 2 ^ 53).
    { destruct (Z.min_spec ex ey) as [[_ He]|[_ He]]; fold e in He.
      - assert (a = Zpos mx)
          by (unfold a; replace (ex - e) with 0 by lia; rewrite Z.pow_0_r; lia).
        lia.
      - assert (b = Zpos my)
          by (unfold b; replace (ey - e) with 0 by lia; rewrite Z.pow_0_r; lia).
        lia. }
    destruct (a mod b) as [|p|p] eqn:Hp; try lia.
    + rewrite <- ER. reflexivity.
    + cbn [binary_normalize].
      destruct (binary_round_exact p e) as (m' & e' & Hr & B & E).
      * lia.
      * rewrite ER. apply Z.le_lt_trans with X; [apply Z.mod_le; lia|exact HX2].
      * apply (exact_of_grid _ (e + 1074)); try lia.
        -- apply Z.mod_mul. lia.
        -- rewrite (Z.pow_add_r 2 53 (e + 1074)) by lia.
           apply Z.mul_lt_mono_pos_r; lia.
      * rewrite Hr, ticks_SF2Prim by exact B. now rewrite E, ER.
Qed.

Lemma new_location_zero (n : Z) : new_location n 0 = loc_Exact.
Proof. unfold new_location. destruct (Z.even n); reflexivity. Qed.

(** A quotient that is a whole number below [2^53] is exact. *)
Lemma div_ticks (x y : float) (Y Q : Z) :
  ticks x = Some (Y * Q) -> ticks y = Some Y -> 0 < Y -> 0 < Q < 2 ^ 53 ->
  ticks (x / y) = Some (Q * 2 ^ 1074).
Proof.
  intros Hx Hy HY HQ.
  destruct (ticks_pos_inv x (Y * Q) Hx ltac:(nia)) as (m1 & e1 & E1 & B1 & EX).
  destruct (ticks_pos_inv y Y Hy HY) as (m2 & e2 & E2 & B2 & EY).
  pose proof (bounded_inv _ _ B1) as (L1 & _).
  pose proof (bounded_inv _ _ B2) as (L2 & _).
  pose proof (digits2_bounds m1) as [D1lo D1hi].
  pose proof (digits2_bounds m2) as [D2lo D2hi].
  set (d1 := Zpos (digits2_pos m1)) in *. set (d2 := Zpos (digits2_pos m2)) in *.
  assert (Hd1 : 0 < d1) by (unfold d1; lia). assert (Hd2 : 0 < d2) by (unfold d2; lia).
  (* the number of bits of the quotient *)
  pose proof (Z.log2_spec Q ltac:(lia)) as [Qlo Qhi].
  pose proof (Z.log2_nonneg Q) as Q0.
  assert (Q53 : Z.log2 Q < 53) by (apply Z.log2_lt_pow2; lia).
  set (bq := Z.log2 Q + 1) in *.
  replace (Z.succ (Z.log2 Q)) with bq in Qhi by (unfold bq; lia).
  assert (P1 : 0 < 2 ^ (e1 + 1074)) by (apply Z.pow_pos_nonneg; lia).
  assert (P2 : 0 < 2 ^ (e2 + 1074)) by (apply Z.pow_pos_nonneg; lia).
  (* the exact value: m1 * 2^e1 = Q * m2 * 2^e2 *)
  assert (EQ : Zpos m1 * 2 ^ (e1 + 1074) = Q * (Zpos m2 * 2 ^ (e2 + 1074))) by lia.
  assert (HD : d1 + e1 - (d2 + e2) <= bq).
  { destruct (Z.le_gt_cases (d1 + e1 - (d2 + e2)) bq) as [|Hgt]; [assumption|exfalso].
    assert (A : 2 ^ (bq + d2 + e2 + 1074) <= 2 ^ (d1 - 1 + e1 + 1074))
      by (apply Z.pow_le_mono_r; lia).
    replace (d1 - 1 + e1 + 1074) with (d1 - 1 + (e1 + 1074)) in A by lia.
    rewrite (Z.pow_add_r 2 (d1 - 1) (e1 + 1074)) in A by lia.
    replace (bq + d2 + e2 + 1074) with (bq + (d2 + (e2 + 1074))) in A by lia.
    rewrite (Z.pow_add_r 2 bq), (Z.pow_add_r 2 d2) in A by lia.
    assert (Pbq : 0 < 2 ^ bq) by (apply Z.pow_pos_nonneg; lia).
    assert (Pd1 : 0 < 2 ^ (d1 - 1)) by (apply Z.pow_pos_nonneg; lia).
    assert (Pd2 : 0 < 2 ^ d2) by (apply Z.pow_pos_nonneg; lia).
    assert (B : Q * (Zpos m2 * 2 ^ (e2 + 1074)) < 2 ^ bq * (2 ^ d2 * 2 ^ (e2 + 1074))).
    { apply Z.mul_lt_mono_nonneg; try lia.
      apply Z.mul_lt_mono_pos_r; lia. }
    assert (C : 2 ^ (d1 - 1) * 2 ^ (e1 + 1074) <= Zpos m1 * 2 ^ (e1 + 1074))
      by (apply Z.mul_le_mono_nonneg_r; lia).
    lia. }
  pose proof (div_spec x y) as S. rewrite E1, E2 in S.
  unfold SF64div, SFdiv, SFdiv_core_binary in S.
  cbn [Zdigits2 xorb] in S. fold d1 d2 in S. rewrite fexp_eq in S.
  set (e' := Z.min (Z.max (d1 + e1 - (d2 + e2) - 53) (-1074)) (e1 - e2)) in *.
  assert (He'0 : e' <= 0) by (unfold e'; lia).
  assert (He'1 : e' <= bq - 53) by (unfold e'; lia).
  assert (Hs : 0 <= e1 - e2 - e') by (unfold e'; lia).
  (* the shifted dividend is a multiple of the divisor *)
  assert (Hm' : match e1 - e2 - e' with
                | Zpos _ => Z.shiftl (Zpos m1) (e1 - e2 - e')
                | 0 => Zpos m1
                | Zneg _ => 0
                end = Zpos m2 * (Q * 2 ^ (- e'))).
  { assert (Em : Zpos m1 * 2 ^ (e1 - e2 - e') = Zpos m2 * (Q * 2 ^ (- e'))).
    { apply (Z.mul_cancel_r _ _ (2 ^ (e2 + 1074))); [lia|].
      rewrite <- Z.mul_assoc, <- Z.pow_add_r by lia.
      replace (e1 - e2 - e' + (e2 + 1074)) with (e1 + 1074 + - e') by lia.
      rewrite (Z.pow_add_r 2 (e1 + 1074) (- e')) by lia. nia. }
    set (s := e1 - e2 - e') in *. clearbody s.
    destruct s as [|p|p]; try lia.
    rewrite Z.shiftl_mul_pow2 by lia. exact Em. }
  rewrite Hm' in S.
  set (q := Q * 2 ^ (- e')) in *.
  assert (Pq : 0 < 2 ^ (- e')) by (apply Z.pow_pos_nonneg; lia).
  assert (Hq : 0 < q) by (unfold q; lia).
  assert (Hdiv : Z.div_eucl (Zpos m2 * q) (Zpos m2) = (q, 0)).
  { assert (H : Z.div_eucl (Zpos m2 * q) (Zpos m2)
                = ((Zpos m2 * q) / Zpos m2, (Zpos m2 * q) mod Zpos m2))
      by (unfold Z.div, Z.modulo; destruct Z.div_eucl; reflexivity).
    rewrite H, (Z.mul_comm (Zpos m2) q), Z.div_mul, Z.mod_mul by lia.
    reflexivity. }
  rewrite Hdiv, new_location_zero in S.
  assert (Hqp : exists qp, Zpos qp = Q * 2 ^ (- e'))
    by (exists (Z.to_pos q); rewrite Z2Pos.id by exact Hq; reflexivity).
  destruct Hqp as [qp Hqp]. fold q in Hqp. rewrite <- Hqp in S. unfold q in Hqp.
  (* the quotient has the bits of Q *)
  assert (Dq : Zpos (digits2_pos qp) = bq + - e').
  { apply digits2_unique. rewrite Hqp. 
    replace (bq + - e' - 1) with (Z.log2 Q + - e') by (unfold bq; lia).
    rewrite !Z.pow_add_r by lia. split.
    - apply Z.mul_le_mono_nonneg_r; lia.
    - apply Z.mul_lt_mono_pos_r; lia. }
  set (E := Z.max (Zpos (digits2_pos qp) + e' - 53) (-1074)).
  assert (HE : E = bq - 53) by (unfold E; rewrite Dq; unfold bq; lia).
  assert (PE : 0 < 2 ^ (E + 1074)) by (apply Z.pow_pos_nonneg; lia).
  destruct (Z.eq_dec e' E) as [Heq|Hne].
  - assert (VQ : Zpos qp * 2 ^ (e' + 1074) = Q * 2 ^ 1074).
    { rewrite Hqp, <- Z.mul_assoc, <- Z.pow_add_r by (unfold bq in *; lia).
      do 2 f_equal. lia. }
    rewrite bra_canonical in S by (fold E; lia).
    destruct (Z.leb_spec e' 971); [|lia].
    unfold ticks. rewrite S. cbn [cond_Zopp]. now rewrite VQ.
  - destruct (bra_shift qp e') as (z & _ & Hz0 & Hr); [fold E; lia|].
    fold E in Hz0, Hr.
    assert (Pn : 0 < 2 ^ (E - e')) by (apply Z.pow_pos_nonneg; lia).
    assert (Ez : Zpos qp = Q * 2 ^ (- E) * 2 ^ (E - e')).
    { rewrite Hqp, <- Z.mul_assoc, <- Z.pow_add_r by lia. do 2 f_equal. lia. }
    assert (Hz : z = Q * 2 ^ (- E)).
    { rewrite Hz0; [|rewrite Ez; apply Z.mod_mul; lia].
      rewrite Ez. apply Z.div_mul. lia. }
    assert (Vz : z * 2 ^ (E + 1074) = Q * 2 ^ 1074).
    { rewrite Hz, <- Z.mul_assoc, <- Z.pow_add_r by lia. do 2 f_equal. lia. }
    assert (Pz : 0 < z).
    { rewrite Hz. apply Z.mul_pos_pos; [lia|apply Z.pow_pos_nonneg; lia]. }
    unfold ticks. rewrite S.
    destruct (binary_round_aux prec emax false (Zpos qp) e' loc_Exact)
      as [[|]|[|]| |[|] m' e'']; try contradiction; try lia.
    cbn [cond_Zopp]. f_equal. rewrite <- Vz.
    destruct Hr as [_ [[-> <-]|[-> <-]]]; [reflexivity|].
    replace (E + 1 + 1074) with (1 + (E + 1074)) by lia.
    rewrite (Z.pow_add_r 2 1 (E + 1074)) by lia. change (2 ^ 1) with 2. lia.
Qed.

Lemma ticks_copysign0 (y : float) : ticks (Py.copysign0 y) = Some 0.
Proof. unfold Py.copysign0. destruct (get_sign y); reflexivity. Qed.

(** A number is a zero when its exact value is 0. *)
Lemma nonzero_ticks (x : float) (X : Z) :
  ticks x = Some X -> Py.nonzero x = negb (X =? 0).
Proof.
  unfold Py.nonzero, ticks. rewrite eqb_spec, Prim2SF_zero. unfold SFeqb.
  pose proof (Prim2SF_valid x) as V.
  destruct (Prim2SF x) as [s|s| |s m e]; try discriminate;
    intros H; apply some_inj in H; subst X; [reflexivity|].
  pose proof (finite_ticks_pos m e V).
  destruct s; unfold cond_Zopp; cbn [SFcompare negb].
  - destruct (Z.eqb_spec (- (Zpos m * 2 ^ (e + 1074))) 0); [lia|reflexivity].
  - destruct (Z.eqb_spec (Zpos m * 2 ^ (e + 1074)) 0); [lia|reflexivity].
Qed.

Lemma ltb_zero_ticks (x : float) (X : Z) :
  ticks x = Some X -> 0 <= X -> (x <? 0)%float = false.
Proof.
  intros Hx HX. rewrite (ltb_ticks x 0 X 0 Hx ticks_zero). now apply Z.ltb_ge.
Qed.

(** Zero divided by a positive number is zero. *)
Lemma div_zero_ticks (x y : float) (Y : Z) :
  ticks x = Some 0 -> ticks y = Some Y -> 0 < Y -> ticks (x / y) = Some 0.
Proof.
  intros Hx Hy HY.
  destruct (ticks_nonneg_inv x 0 Hx ltac:(lia)) as [[_ [s Ex]]|[H _]]; [|lia].
  destruct (ticks_pos_inv y Y Hy HY) as (m & e & Ey & _).
  unfold ticks. rewrite div_spec, Ex, Ey. reflexivity.
Qed.

(** C's [floor] on a number that is not negative: the whole part. *)
Lemma floor_ticks (x : float) (X : Z) :
  ticks x = Some X -> 0 <= X < 2 ^ (53 + 1074) ->
  ticks (Py.floor x) = Some (X / 2 ^ 1074 * 2 ^ 1074).
Proof.
  intros Hx [HX HX2].
  assert (PU : 0 < 2 ^ 1074) by (apply Z.pow_pos_nonneg; lia).
  destruct (ticks_nonneg_inv x X Hx HX) as [[-> [s Ex]]|(HX' & m & e & Ex & B & EX)];
    unfold Py.floor; rewrite Ex; [exact Hx|].
  pose proof (bounded_inv _ _ B) as (Le & _).
  destruct (Z.leb_spec 0 e) as [He|He].
  - rewrite Hx. f_equal. rewrite EX.
    rewrite (Z.pow_add_r 2 e 1074), Z.mul_assoc, Z.div_mul by lia. reflexivity.
  - cbn [cond_Zopp]. rewrite Z.shiftl_div_pow2 by lia.
    assert (Eq : Zpos m / 2 ^ (- e) = X / 2 ^ 1074).
    { rewrite EX. replace 1074 with (- e + (e + 1074)) at 2 by lia.
      rewrite (Z.pow_add_r 2 (- e) (e + 1074)) by lia.
      rewrite Z.div_mul_cancel_r; [reflexivity| |]; apply Z.pow_nonzero; lia. }
    rewrite Eq. apply float_of_Z_ticks. split; [apply Z.div_pos; lia|].
    apply Z.div_lt_upper_bound; [lia|].
    rewrite <- Z.pow_add_r by lia. replace (1074 + 53) with (53 + 1074) by lia.
    exact HX2.
Qed.

(** [x // y] for [x] not negative and [y] a positive whole number: the
    whole quotient, exactly. *)
Lemma floordiv_ticks (x y : float) (X Y : Z) :
  ticks x = Some X -> ticks y = Some Y ->
  0 <= X < 2 ^ (53 + 1074) -> 0 < Y -> Y mod 2 ^ 1074 = 0 ->
  exists q, Py.floordiv x y = inr q /\ ticks q = Some (X / Y * 2 ^ 1074).
Proof.
  intros Hx Hy [HX HX2] HY HYU.
  assert (PU : 0 < 2 ^ 1074) by (apply Z.pow_pos_nonneg; lia).
  assert (Hy0 : (y =? 0)%float = false).
  { apply ltb_zero_nonzero. rewrite (ltb_ticks 0 y 0 Y ticks_zero Hy).
    now apply Z.ltb_lt. }
  assert (X2000 : X < 2 ^ 2000).
  { eapply Z.lt_le_trans; [exact HX2|]. apply Z.pow_le_mono_r; lia. }
  pose proof (fmod_ticks x y X Y Hx Hy ltac:(lia) HY) as Hmd.
  pose proof (Z.mod_pos_bound X Y HY) as [M0 M1].
  pose proof (Z.div_mod X Y ltac:(lia)) as DM.
  assert (Q0 : 0 <= X / Y) by (apply Z.div_pos; lia).
  assert (YU : 2 ^ 1074 <= Y).
  { pose proof (Z_div_exact_full_2 Y (2 ^ 1074) ltac:(lia) HYU).
    assert (0 < Y / 2 ^ 1074) by nia. nia. }
  assert (Q53 : X / Y < 2 ^ 53).
  { apply Z.div_lt_upper_bound; [lia|].
    rewrite (Z.pow_add_r 2 53 1074) in HX2 by lia. nia. }
  assert (Hsub : ticks (x - Py.fmod x y) = Some (Y * (X / Y))).
  { replace (Y * (X / Y)) with (X - X mod Y) by lia.
    apply (sub_ticks _ _ X (X mod Y) 1074); try lia; try assumption.
    replace (X - X mod Y) with (X / Y * Y) by lia.
    rewrite (Z_div_exact_full_2 Y (2 ^ 1074) ltac:(lia) HYU).
    rewrite (Z.mul_comm (2 ^ 1074)), Z.mul_assoc. apply Z.mod_mul. lia. }
  unfold Py.floordiv. rewrite Hy0. cbv zeta.
  rewrite (nonzero_ticks _ _ Hmd).
  rewrite (ltb_zero_ticks y Y Hy ltac:(lia)).
  rewrite (ltb_zero_ticks _ _ Hmd M0).
  cbn [xorb]. rewrite andb_false_r.
  set (dv := ((x - Py.fmod x y) / y)%float).
  destruct (Z.eq_dec (X / Y) 0) as [Hq|Hq].
  - assert (Hdv : ticks dv = Some 0).
    { apply (div_zero_ticks _ y Y); [|exact Hy|exact HY].
      rewrite Hsub. f_equal. rewrite Hq. lia. }
    rewrite (nonzero_ticks _ _ Hdv). cbn [Z.eqb negb].
    eexists. split; [reflexivity|]. rewrite ticks_copysign0, Hq. reflexivity.
  - assert (Hdv : ticks dv = Some (X / Y * 2 ^ 1074))
      by (apply (div_ticks _ y Y); [exact Hsub|exact Hy|exact HY|lia]).
    rewrite (nonzero_ticks _ _ Hdv).
    destruct (Z.eqb_spec (X / Y * 2 ^ 1074) 0) as [H0|_]; [nia|]. cbn [negb].
    assert (Hfl : ticks (Py.floor dv) = Some (X / Y * 2 ^ 1074)).
    { rewrite (floor_ticks dv _ Hdv).
      - rewrite Z.div_mul by lia. reflexivity.
      - split; [nia|]. rewrite (Z.pow_add_r 2 53 1074) by lia.
        apply Z.mul_lt_mono_pos_r; lia. }
    assert (Hd : ticks (dv - Py.floor dv) = Some 0).
    { replace 0 with (X / Y * 2 ^ 1074 - X / Y * 2 ^ 1074) by lia.
      assert (B : X / Y * 2 ^ 1074 < 2 ^ 2000).
      { eapply Z.lt_le_trans with (2 ^ 53 * 2 ^ 1074).
        + apply Z.mul_lt_mono_pos_r; lia.
        + rewrite <- Z.pow_add_r by lia. apply Z.pow_le_mono_r; lia. }
      apply (sub_ticks _ _ _ _ 0 Hdv Hfl); [nia|exact B|lia| |];
        rewrite Z.sub_diag; [reflexivity|apply Z.pow_pos_nonneg; lia]. }
    rewrite (ltb_ticks 0.5 _ (2 ^ 1073) 0 ltac:(reflexivity) Hd).
    change (2 ^ 1073 <? 0) with false.
    eexists. split; [reflexivity|exact Hfl].
Qed.

(** [x % y] for [x] not negative and [y] positive: the exact
    remainder. *)
Lemma rem_ticks (x y : float) (X Y : Z) :
  ticks x = Some X -> ticks y = Some Y -> 0 <= X < 2 ^ 2000 -> 0 < Y ->
  exists r, Py.rem x y = inr r /\ ticks r = Some (X mod Y).
Proof.
  intros Hx Hy HX HY.
  assert (Hy0 : (y =? 0)%float = false).
  { apply ltb_zero_nonzero. rewrite (ltb_ticks 0 y 0 Y ticks_zero Hy).
    now apply Z.ltb_lt. }
  pose proof (fmod_ticks x y X Y Hx Hy HX HY) as Hmd.
  pose proof (Z.mod_pos_bound X Y HY) as [M0 M1].
  unfold Py.rem. rewrite Hy0. cbv zeta.
  rewrite (nonzero_ticks _ _ Hmd).
  rewrite (ltb_zero_ticks y Y Hy ltac:(lia)).
  rewrite (ltb_zero_ticks _ _ Hmd M0). cbn [xorb].
  eexists. split; [reflexivity|].
  destruct (Z.eqb_spec (X mod Y) 0) as [H0|_]; cbn [negb]; [|exact Hmd].
  rewrite ticks_copysign0, H0. reflexivity.
Qed.

(** [round] on a number that is not negative: within a half of it. *)
Lemma round_ticks (x : float) (X : Z) :
  ticks x = Some X -> 0 <= X ->
  exists n, Py.round x = inr n /\ 0 <= n /\
            2 * X - 2 ^ 1074 <= 2 * n * 2 ^ 1074 <= 2 * X + 2 ^ 1074.
Proof.
  intros Hx HX.
  assert (PU : 0 < 2 ^ 1074) by (apply Z.pow_pos_nonneg; lia).
  destruct (ticks_nonneg_inv x X Hx HX) as [[-> [s Ex]]|(HX' & m & e & Ex & B & EX)];
    unfold Py.round; rewrite Ex.
  - exists 0. split; [reflexivity|lia].
  - pose proof (bounded_inv _ _ B) as (Le & _).
    unfold ret, cond_Zopp, Py.nearest_even.
    destruct (Z.leb_spec 0 e) as [He|He].
    + exists (Z.shiftl (Zpos m) e). split; [reflexivity|].
      rewrite Z.shiftl_mul_pow2 by lia.
      assert (Pe : 0 < 2 ^ e) by (apply Z.pow_pos_nonneg; lia).
      rewrite EX, (Z.pow_add_r 2 e 1074) by lia. split; [nia|nia].
    + cbv zeta.
      set (d := 2 ^ (- e)). set (P := 2 ^ (e + 1074)).
      assert (Pd : 0 < d) by (apply Z.pow_pos_nonneg; lia).
      assert (PP : 0 < P) by (apply Z.pow_pos_nonneg; lia).
      assert (EU : 2 ^ 1074 = d * P).
      { unfold d, P. rewrite <- Z.pow_add_r by lia. f_equal. lia. }
      pose proof (Z.div_mod (Zpos m) d ltac:(lia)) as DM.
      pose proof (Z.mod_pos_bound (Zpos m) d Pd) as [R0 R1].
      assert (Q0 : 0 <= Zpos m / d) by (apply Z.div_pos; lia).
      set (q := Zpos m / d) in *. set (r := Zpos m mod d) in *.
      rewrite EU, EX. fold P.
      destruct (Z.compare_spec (2 * r) d) as [Hc|Hc|Hc].
      * destruct (Z.even q); eexists; (split; [reflexivity|]); split; nia.
      * exists q. split; [reflexivity|]. split; nia.
      * exists (q + 1). split; [reflexivity|]. split; nia.
Qed.

(** The exact values of two numbers compare as the numbers do. *)
Lemma compare_ticks (x y : float) (a b : Z) :
  ticks x = Some a -> ticks y = Some b ->
  SFcompare (Prim2SF x) (Prim2SF y) = Some (a ?= b).
Proof.
  unfold ticks.
  pose proof (Prim2SF_valid x) as Vx. pose proof (Prim2SF_valid y) as Vy.
  destruct (Prim2SF x) as [sx|sx| |sx mx ex]; try discriminate;
  destruct (Prim2SF y) as [sy|sy| |sy my ey]; try discriminate;
  intros Ha Hb; apply some_inj in Ha, Hb; subst a b;
  unfold SFcompare, valid_binary in *.
  - reflexivity.
  - pose proof (finite_ticks_pos _ _ Vy). f_equal. symmetry.
    destruct sy; unfold cond_Zopp; [apply Z.compare_gt_iff|apply Z.compare_lt_iff]; lia.
  - pose proof (finite_ticks_pos _ _ Vx). f_equal. symmetry.
    destruct sx; unfold cond_Zopp; [apply Z.compare_lt_iff|apply Z.compare_gt_iff]; lia.
  - pose proof (finite_ticks_pos _ _ Vx). pose proof (finite_ticks_pos _ _ Vy).
    pose proof (finite_compare mx my ex ey Vx Vy) as C.
    pose proof (finite_compare my mx ey ex Vy Vx) as C'.
    f_equal. destruct sx, sy; unfold cond_Zopp.
    + rewrite Z.compare_opp, <- C'.
      rewrite (Z.compare_antisym ex ey).
      destruct (ex ?= ey); cbn [CompOpp]; try reflexivity.
      rewrite (Pos.compare_cont_antisym mx my Eq). reflexivity.
    + symmetry. apply Z.compare_lt_iff. lia.
    + symmetry. apply Z.compare_gt_iff. lia.
    + exact C.
Qed.

Lemma leb_ticks (x y : float) (a b : Z) :
  ticks x = Some a -> ticks y = Some b -> (x <=? y)%float = (a <=? b).
Proof.
  intros Hx Hy. rewrite leb_spec. unfold SFleb.
  rewrite (compare_ticks x y a b Hx Hy). unfold Z.leb.
  destruct (a ?= b); reflexivity.
Qed.

Lemma Prim2SF_1000 : Prim2SF 1000 = S754_finite false 8796093022208000 (-43).
Proof. reflexivity. Qed.

(** A fraction of a second times 1000, rounded: within [2^-43] of the
    exact product. *)
Lemma mul1000_ticks (f : float) (F : Z) :
  ticks f = Some F -> 0 < F < 2 ^ 1074 ->
  exists R, ticks (f * 1000) = Some R /\ 0 <= R /\
            1000 * F - 2 ^ 1031 < R <= 1000 * F + 2 ^ 1031.
Proof.
  intros Hf [HF HF1].
  destruct (ticks_pos_inv f F Hf HF) as (mf & ef & Ef & Bf & EF).
  pose proof (bounded_inv _ _ Bf) as (Le & Lm & Ln).
  pose proof (mul_spec f 1000) as S. rewrite Ef, Prim2SF_1000 in S.
  unfold SF64mul, SFmul in S. cbn [xorb] in S.
  assert (Pe : 0 < 2 ^ (ef + 1074)) by (apply Z.pow_pos_nonneg; lia).
  (* the product of the mantissas is [mf * 1000], shifted by 43 bits *)
  set (M := (mf * 1000)%positive).
  assert (EM : Zpos (mf * 8796093022208000) = Zpos M * 2 ^ 43).
  { unfold M. rewrite !Pos2Z.inj_mul. change (2 ^ 43) with 8796093022208.
    change (Zpos 8796093022208000) with (1000 * 8796093022208). lia. }
  assert (EV : 1000 * F = Zpos M * 2 ^ (ef + 1074)).
  { unfold M. rewrite EF, Pos2Z.inj_mul. lia. }
  pose proof (digits2_bounds M) as [Mlo Mhi].
  set (dm := Zpos (digits2_pos M)) in *.
  assert (Hdm : 10 <= dm).
  { destruct (Z.le_gt_cases 10 dm) as [|Hlt]; [assumption|exfalso].
    assert (2 ^ dm <= 2 ^ 9) by (apply Z.pow_le_mono_r; lia).
    assert (1000 <= Zpos M) by (unfold M; rewrite Pos2Z.inj_mul; lia).
    change (2 ^ 9) with 512 in *. lia. }
  assert (Hdm' : ef <> -1074 -> 62 <= dm).
  { intros Hn. destruct Ln as [|Ln]; [contradiction|].
    destruct (Z.le_gt_cases 62 dm) as [|Hlt]; [assumption|exfalso].
    assert (2 ^ dm <= 2 ^ 61) by (apply Z.pow_le_mono_r; lia).
    assert (2 ^ 52 * 1000 <= Zpos M) by (unfold M; rewrite Pos2Z.inj_mul; lia).
    change (2 ^ 61) with 2305843009213693952 in *.
    change (2 ^ 52) with 4503599627370496 in *. lia. }
  assert (Dp : Zpos (digits2_pos (mf * 8796093022208000)) = dm + 43)
    by (apply digits2_shift; [lia|exact EM]).
  set (E := Z.max (dm + ef - 53) (-1074)).
  set (g := E + 1074).
  assert (Pg : 0 < 2 ^ g) by (apply Z.pow_pos_nonneg; unfold g, E; lia).
  (* the rounding exponent is small *)
  assert (Hg : g <= 1031).
  { destruct (Z.le_gt_cases g 1031) as [|Hgt]; [assumption|exfalso].
    assert (A : 2 ^ 1084 <= 2 ^ (dm - 1 + (ef + 1074)))
      by (apply Z.pow_le_mono_r; unfold g, E in *; lia).
    rewrite (Z.pow_add_r 2 (dm - 1) (ef + 1074)) in A by lia.
    assert (B : 2 ^ (dm - 1) * 2 ^ (ef + 1074) <= Zpos M * 2 ^ (ef + 1074))
      by (apply Z.mul_le_mono_nonneg_r; lia).
    assert (C : 1000 * 2 ^ 1074 < 2 ^ 1084) by (vm_compute; reflexivity).
    lia. }
  assert (HEe : ef + -43 < E /\ ef <= E).
  { unfold E. destruct (Z.eq_dec ef (-1074)) as [->|Hn]; [lia|].
    specialize (Hdm' Hn). lia. }
  destruct HEe as [HE1 HE2].
  pose proof (bra_shift (mf * 8796093022208000) (ef + -43)) as BS.
  cbv zeta in BS. rewrite Dp in BS.
  replace (Z.max (dm + 43 + (ef + -43) - 53) (-1074)) with E in BS
    by (unfold E; lia).
  destruct (BS HE1) as (z & Hz & _ & Hr). clear BS.
  assert (Hq : Zpos (mf * 8796093022208000) / 2 ^ (E - (ef + -43))
               = 1000 * F / 2 ^ g).
  { rewrite EM, EV.
    replace (E - (ef + -43)) with (E - ef + 43) by lia.
    rewrite (Z.pow_add_r 2 (E - ef) 43) by lia.
    rewrite Z.div_mul_cancel_r by (try apply Z.pow_nonzero; lia).
    unfold g. replace (E + 1074) with (E - ef + (ef + 1074)) by lia.
    rewrite (Z.pow_add_r 2 (E - ef) (ef + 1074)) by lia.
    rewrite Z.div_mul_cancel_r by (try apply Z.pow_nonzero; lia).
    reflexivity. }
  rewrite Hq in Hz.
  pose proof (Z.div_mod (1000 * F) (2 ^ g) ltac:(lia)) as DM.
  pose proof (Z.mod_pos_bound (1000 * F) (2 ^ g) Pg) as [R0 R1].
  assert (P31 : 2 ^ g <= 2 ^ 1031) by (apply Z.pow_le_mono_r; lia).
  exists (z * 2 ^ g). split.
  - unfold ticks. rewrite S.
    destruct (binary_round_aux prec emax false
                (Zpos (mf * 8796093022208000)) (ef + -43) loc_Exact)
      as [[|]|[|]| |[|] m' e']; try contradiction.
    + now rewrite Hr.
    + exfalso. unfold g in Hg. lia.
    + cbn [cond_Zopp]. f_equal.
      destruct Hr as [_ [[-> <-]|[-> <-]]]; [reflexivity|].
      fold g. replace (E + 1 + 1074) with (1 + g) by (unfold g; lia).
      rewrite (Z.pow_add_r 2 1 g) by (unfold g, E; lia). change (2 ^ 1) with 2. lia.
  - assert (Q0 : 0 <= 1000 * F / 2 ^ g) by (apply Z.div_pos; lia).
    destruct Hz as [->| ->]; split; nia.
Qed.

(** A zero times 1000 is a zero. *)
Lemma mul1000_zero (f : float) :
  ticks f = Some 0 -> ticks (f * 1000) = Some 0.
Proof.
  intros Hf.
  destruct (ticks_nonneg_inv f 0 Hf ltac:(lia)) as [[_ [s Ef]]|[H _]]; [|lia].
  unfold ticks. rewrite mul_spec, Ef, Prim2SF_1000. reflexivity.
Qed.

(** ** The loop, one iteration at a time *)

Section LoopFacts.

Variable w : World.
Variables (out_dir : string) (interval duration_sec : float).

Local Abbreviation loop' := (loop w out_dir interval duration_sec).

(** What one iteration does, case by case. *)
Lemma loop_cases (fuel : nat) (t : float) (s : Z) :
  loop' (S fuel) t s =
  match read_at w (t * 1000)%float with
  | None => ([SetPosMsec (t * 1000)%float; Read false], inr s)
  | Some frame =>
      match filename t with
      | inl e => ([SetPosMsec (t * 1000)%float; Read true], inl (Uncaught e))
      | inr name =>
          let p := Py.path_join out_dir name in
          match imwrite w p frame with
          | ImWriteRaises =>
              ([SetPosMsec (t * 1000)%float; Read true; ImWrite p ImWriteRaises],
               inl (Uncaught CvError))
          | r =>
              let evs := [SetPosMsec (t * 1000)%float; Read true; ImWrite p r; PbarUpdate] in
              if (duration_sec <? t + interval)%float then (evs, inr (s + 1))
              else
                let (tr, res) := loop' fuel (t + interval)%float (s + 1) in
                (evs ++ tr, res)
          end
      end
  end.
Proof.
  cbn [loop]. unfold andthen, emit, pure, stop, lift, write_frame.
  destruct (read_at w (t * 1000)%float) as [frame|]; [|reflexivity].
  destruct (filename t) as [e|name]; [reflexivity|].
  cbn. destruct (imwrite w (Py.path_join out_dir name) frame); cbn; try reflexivity.
  all: destruct (duration_sec <? t + interval)%float; try reflexivity.
  all: destruct (loop' fuel (t + interval)%float (s + 1)) as [tr [o|n]]; reflexivity.
Qed.

(** An iteration that decodes, writes without an exception and does
    not end the loop. *)
Lemma loop_continue (fuel : nat) (t : float) (s : Z) frame name :
  read_at w (t * 1000)%float = Some frame ->
  filename t = inr name ->
  imwrite w (Py.path_join out_dir name) frame <> ImWriteRaises ->
  (duration_sec <? t + interval)%float = false ->
  loop' (S fuel) t s =
  let (tr, res) := loop' fuel (t + interval)%float (s + 1) in
  ([SetPosMsec (t * 1000)%float; Read true;
    ImWrite (Py.path_join out_dir name) (imwrite w (Py.path_join out_dir name) frame);
    PbarUpdate] ++ tr, res).
Proof.
  intros Hr Hn Hw Hd. rewrite loop_cases, Hr, Hn. cbv zeta.
  destruct (imwrite w (Py.path_join out_dir name) frame); try congruence;
    rewrite Hd; reflexivity.
Qed.

(** An iteration that decodes, writes without an exception and finds
    the clock past the duration. *)
Lemma loop_last (fuel : nat) (t : float) (s : Z) frame name :
  read_at w (t * 1000)%float = Some frame ->
  filename t = inr name ->
  imwrite w (Py.path_join out_dir name) frame <> ImWriteRaises ->
  (duration_sec <? t + interval)%float = true ->
  loop' (S fuel) t s =
  ([SetPosMsec (t * 1000)%float; Read true;
    ImWrite (Py.path_join out_dir name) (imwrite w (Py.path_join out_dir name) frame);
    PbarUpdate], inr (s + 1)).
Proof.
  intros Hr Hn Hw Hd. rewrite loop_cases, Hr, Hn. cbv zeta.
  destruct (imwrite w (Py.path_join out_dir name) frame); try congruence;
    rewrite Hd; reflexivity.
Qed.

(** The loop never releases the decoder, closes the bar or prints. *)
Lemma loop_no_release (fuel : nat) (t : float) (s : Z) :
  ~ In Release (fst (loop' fuel t s)).
Proof.
  revert t s. induction fuel as [|fuel IH]; intros t s; [cbn; tauto|].
  rewrite loop_cases.
  destruct (read_at w (t * 1000)%float) as [frame|];
    [|cbn; intuition discriminate].
  destruct (filename t) as [e|name]; [cbn; intuition discriminate|].
  cbv zeta. specialize (IH (t + interval)%float (s + 1)).
  destruct (imwrite w (Py.path_join out_dir name) frame);
    try (cbn; intuition discriminate).
  all: destruct (duration_sec <? t + interval)%float;
    [cbn; intuition discriminate|].
  all: destruct (loop' fuel (t + interval)%float (s + 1)) as [tr res];
    cbn in *; intuition discriminate.
Qed.

(** From a state the loop reaches, it goes on as if started there. *)
Lemma reaches_loop (t : float) (s : Z) (tr : list Event) :
  reaches w out_dir interval duration_sec t s tr ->
  exists n, forall fuel,
    loop' (n + fuel) 0%float 0 =
    let (tr', res) := loop' fuel t s in (tr ++ tr', res).
Proof.
  induction 1 as [|t s tr frame name r _ [n IH] Hr Hn Hw Hne Hd].
  - exists O. intros fuel. cbn. now destruct (loop' fuel 0%float 0).
  - exists (S n). intros fuel.
    replace (S n + fuel)%nat with (n + S fuel)%nat by lia.
    rewrite IH. subst r. rewrite (loop_continue fuel t s frame name Hr Hn Hne Hd).
    destruct (loop' fuel (t + interval)%float (s + 1)) as [tr' res].
    now rewrite <- app_assoc.
Qed.

(** The count of a reached state is the number of images handed to the
    writer so far. *)
Lemma reaches_count (t : float) (s : Z) (tr : list Event) :
  reaches w out_dir interval duration_sec t s tr ->
  s = Z.of_nat (List.length (image_paths tr)).
Proof.
  induction 1 as [|t s tr frame name r _ IH]; [reflexivity|].
  unfold image_paths in *. rewrite flat_map_app, length_app. cbn. lia.
Qed.

End LoopFacts.

(** ** From [main] to the loop *)

(** What [extract] does around the loop once the video has opened. *)
Lemma extract_opened (w : World) (fuel : nat) (ip od : string) (i d : float)
  (total : option Z) :
  isOpened w ip = true ->
  duration_of w = inr d ->
  expected_frames d i = inr total ->
  extract w fuel ip od i =
  let (tr, res) := loop w od i d fuel 0%float 0 in
  match res with
  | inl o => ([VideoCapture ip; PbarOpen total (basename ip)] ++ tr, inl o)
  | inr saved =>
      ([VideoCapture ip; PbarOpen total (basename ip)] ++ tr
       ++ [PbarClose; Release; PrintSummary saved od i], inr tt)
  end.
Proof.
  intros Ho Hd He. unfold extract. rewrite Ho, Hd.
  cbv beta iota delta [andthen emit pure stop lift]. rewrite He.
  destruct (loop w od i d fuel 0%float 0) as [tr [o|saved]]; reflexivity.
Qed.

(** An accepted session goes through the prompts and the checks and
    then does what [extract] does. *)
Lemma main_accepted (w : World) (fuel : nat) (ip od : string) (i : float) :
  accepted w ip od i ->
  main w fuel =
  (prompts ++ [IsFile ip; MakeDirs od] ++ fst (extract w fuel ip od i),
   snd (extract w fuel ip od i)).
Proof.
  intros (l1 & l2 & l3 & rest & Hin & H1 & H2 & Hf & Hle & Hfile & Hdir & _).
  unfold main, ask, parse_interval. rewrite Hin. cbn [nth_error].
  rewrite H1, H2. unfold andthen at 1 2 3. cbn [app].
  rewrite Hf, Hle, Hfile, Hdir.
  unfold andthen, emit, pure, stop.
  destruct (extract w fuel ip od i) as [tr res]. reflexivity.
Qed.

(** ** Decode failure ends the run normally *)

(** C7.  A decode failure inside the loop is not an error.  Whenever
    the loop of an accepted session has reached an iteration (clock [t],
    [saved] frames counted, events [tr] so far) and the decoder returns
    no frame there, the loop stops at once: nothing is written for that
    timestamp, the bar is closed, the decoder released, the summary
    reports [saved], which is the number of images handed to the writer
    before, and the process ends with exit status 0. *)
Theorem decode_failure_ends_normally
  (w : World) (ip od : string) (i d : float) (total : option Z)
  (t : float) (saved : Z) (tr : list Event) :
  accepted w ip od i ->
  duration_of w = inr d ->
  expected_frames d i = inr total ->
  reaches w od i d t saved tr ->
  read_at w (t * 1000)%float = None ->
  exists fuel0, forall fuel, (fuel0 <= fuel)%nat ->
    main w fuel =
      (prompts ++ [IsFile ip; MakeDirs od]
       ++ [VideoCapture ip; PbarOpen total (basename ip)]
       ++ tr ++ [SetPosMsec (t * 1000)%float; Read false]
       ++ [PbarClose; Release; PrintSummary saved od i], inr tt) /\
    exit_code (outcome (main w fuel)) = Some 0 /\
    saved = Z.of_nat (List.length (image_paths tr)).
Proof.
  intros Hacc Hd He Hreach Hread.
  destruct (reaches_loop _ _ _ _ _ _ _ Hreach) as [n Hn].
  exists (S n). intros fuel Hfuel.
  assert (Hmain : main w fuel =
    (prompts ++ [IsFile ip; MakeDirs od]
       ++ [VideoCapture ip; PbarOpen total (basename ip)]
       ++ tr ++ [SetPosMsec (t * 1000)%float; Read false]
       ++ [PbarClose; Release; PrintSummary saved od i], inr tt)).
  { rewrite (main_accepted w fuel ip od i Hacc).
    assert (Ho : isOpened w ip = true).
    { destruct Hacc as (? & ? & ? & ? & ? & ? & ? & ? & ? & ? & ? & Ho). exact Ho. }
    rewrite (extract_opened w fuel ip od i d total Ho Hd He).
    replace fuel with (n + S (fuel - S n))%nat by lia.
    rewrite Hn, loop_cases, Hread. cbn [fst snd].
    rewrite <- !app_assoc. reflexivity. }
  split; [exact Hmain|]. split.
  - rewrite Hmain. reflexivity.
  - eapply reaches_count; eassumption.
Qed.

(** A ten-frame video at one frame per second, sampled every two
    seconds, whose decoder gives up from 3 s on: two frames are saved,
    the third read fails, and the run ends normally reporting 2. *)
Lemma decode_failure_after_two_frames :
  exists fuel0, forall fuel, (fuel0 <= fuel)%nat ->
    main (stream_until 3000 10 1 "2.0") fuel =
      (prompts ++
       [IsFile "in.mp4"; MakeDirs "out"; VideoCapture "in.mp4";
        PbarOpen (Some 6) "in.mp4";
        SetPosMsec 0; Read true; ImWrite "out/frame_00_00_00.000.png" Written; PbarUpdate;
        SetPosMsec 2000; Read true; ImWrite "out/frame_00_00_02.000.png" Written; PbarUpdate;
        SetPosMsec 4000; Read false;
        PbarClose; Release; PrintSummary 2 "out" 2], inr tt) /\
    exit_code (outcome (main (stream_until 3000 10 1 "2.0") fuel)) = Some 0 /\
    2 = Z.of_nat
          (List.length
             (image_paths
                [SetPosMsec 0; Read true; ImWrite "out/frame_00_00_00.000.png" Written; PbarUpdate;
                 SetPosMsec 2000; Read true; ImWrite "out/frame_00_00_02.000.png" Written; PbarUpdate])).
Proof.
  apply (decode_failure_ends_normally (stream_until 3000 10 1 "2.0")
           "in.mp4" "out" 2 10 (Some 6) 4 2
           [SetPosMsec 0; Read true; ImWrite "out/frame_00_00_00.000.png" Written; PbarUpdate;
            SetPosMsec 2000; Read true; ImWrite "out/frame_00_00_02.000.png" Written; PbarUpdate]).
  - exists "in.mp4"%string, "out"%string, "2.0"%string, [].
    repeat split; vm_compute; reflexivity.
  - vm_compute. reflexivity.
  - vm_compute. reflexivity.
  - refine (reaches_next _ _ _ _ 2 1
              [SetPosMsec 0; Read true; ImWrite "out/frame_00_00_00.000.png" Written; PbarUpdate]
              [] "frame_00_00_02.000.png" Written _ _ _ _ _ _).
    + refine (reaches_next _ _ _ _ 0 0 [] [] "frame_00_00_00.000.png" Written _ _ _ _ _ _).
      * apply reaches_start.
      * vm_compute. reflexivity.
      * vm_compute. reflexivity.
      * vm_compute. reflexivity.
      * discriminate.
      * vm_compute. reflexivity.
    + vm_compute. reflexivity.
    + vm_compute. reflexivity.
    + vm_compute. reflexivity.
    + discriminate.
    + vm_compute. reflexivity.
  - vm_compute. reflexivity.
Defined.

(** ** The prompts and the checks *)

(** A session with three lines of input and an interval that passed
    lines 36-41, step by step through the two checks that follow. *)
Lemma main_parsed (w : World) (fuel : nat) (l1 l2 l3 : string)
  (rest : list string) (i : float) :
  stdin w = l1 :: l2 :: l3 :: rest ->
  parse_interval (Py.strip l3) = pure i ->
  main w fuel =
  if isfile w (Py.strip l1) then
    if makedirs w (Py.strip l2) then
      (prompts ++ [IsFile (Py.strip l1); MakeDirs (Py.strip l2)]
       ++ fst (extract w fuel (Py.strip l1) (Py.strip l2) i),
       snd (extract w fuel (Py.strip l1) (Py.strip l2) i))
    else (prompts ++ [IsFile (Py.strip l1); MakeDirs (Py.strip l2)],
          inl (Uncaught OSError))
  else (prompts ++ [IsFile (Py.strip l1)],
        inl (SystemExit (InputNotFound (Py.strip l1)))).
Proof.
  intros Hin Hp. unfold main, ask. rewrite Hin. cbn [nth_error].
  unfold andthen at 1 2 3. cbn [app]. rewrite Hp.
  cbv beta iota delta [andthen emit pure stop].
  destruct (isfile w (Py.strip l1)); [|reflexivity].
  destruct (makedirs w (Py.strip l2)); [|reflexivity].
  destruct (extract w fuel (Py.strip l1) (Py.strip l2) i) as [tr res].
  reflexivity.
Qed.

(** A session whose interval is refused ends after the prompts. *)
Lemma main_refused (w : World) (fuel : nat) (l1 l2 l3 : string)
  (rest : list string) (o : Outcome) :
  stdin w = l1 :: l2 :: l3 :: rest ->
  parse_interval (Py.strip l3) = stop o ->
  main w fuel = (prompts, inl o).
Proof.
  intros Hin Hp. unfold main, ask. rewrite Hin. cbn [nth_error].
  unfold andthen at 1 2 3. cbn [app]. rewrite Hp. reflexivity.
Qed.

(** The loop ends a run only by an exception or by being cut off. *)
Lemma loop_outcome (w : World) (od : string) (i d : float)
  (fuel : nat) (t : float) (s : Z) (o : Outcome) :
  snd (loop w od i d fuel t s) = inl o ->
  o = Unfinished \/ exists e, o = Uncaught e.
Proof.
  revert t s. induction fuel as [|fuel IH]; intros t s.
  - cbn. intros [= <-]. now left.
  - rewrite loop_cases.
    destruct (read_at w (t * 1000)%float) as [frame|]; [|discriminate].
    destruct (filename t) as [e|name]; [cbn; intros [= <-]; right; now exists e|].
    cbv zeta. specialize (IH (t + i)%float (s + 1)).
    destruct (imwrite w (Py.path_join od name) frame);
      try (cbn; intros [= <-]; right; now exists CvError).
    all: destruct (d <? t + i)%float; [discriminate|].
    all: destruct (loop w od i d fuel (t + i)%float (s + 1)) as [tr res];
      cbn in *; exact IH.
Qed.

(** [extract] never ends with the invalid-interval message. *)
Lemma extract_not_invalid (w : World) (fuel : nat) (ip od : string) (i : float) :
  snd (extract w fuel ip od i) <> inl (SystemExit InvalidInterval).
Proof.
  unfold extract. cbv beta iota delta [andthen emit pure stop lift].
  destruct (isOpened w ip); [|discriminate].
  destruct (duration_of w) as [e|d]; [discriminate|].
  destruct (expected_frames d i) as [e|total]; [discriminate|].
  pose proof (loop_outcome w od i d fuel 0%float 0) as H.
  destruct (loop w od i d fuel 0%float 0) as [tr [o|saved]]; [|discriminate].
  cbn in *. intros [= ->].
  destruct (H _ eq_refl) as [?|[e ?]]; discriminate.
Qed.

(** [extract] starts by opening the video. *)
Lemma extract_opens (w : World) (fuel : nat) (ip od : string) (i : float) :
  exists tr, fst (extract w fuel ip od i) = VideoCapture ip :: tr.
Proof.
  unfold extract. cbv beta iota delta [andthen emit pure stop lift].
  destruct (isOpened w ip); [|now eexists].
  destruct (duration_of w) as [e|d]; [now eexists|].
  destruct (expected_frames d i) as [e|total]; [now eexists|].
  destruct (loop w od i d fuel 0%float 0) as [tr [o|saved]]; now eexists.
Qed.

(** The decoder is released only by the line after the loop. *)
Lemma extract_release (w : World) (fuel : nat) (ip od : string) (i : float) :
  match snd (extract w fuel ip od i) with
  | inr _ =>
      exists tr saved,
        fst (extract w fuel ip od i)
        = tr ++ [PbarClose; Release; PrintSummary saved od i] /\
        ~ In Release tr
  | inl _ => ~ In Release (fst (extract w fuel ip od i))
  end.
Proof.
  unfold extract. cbv beta iota delta [andthen emit pure stop lift].
  destruct (isOpened w ip); [|cbn; intuition discriminate].
  destruct (duration_of w) as [e|d]; [cbn; intuition discriminate|].
  destruct (expected_frames d i) as [e|total]; [cbn; intuition discriminate|].
  pose proof (loop_no_release w od i d fuel 0%float 0) as H.
  destruct (loop w od i d fuel 0%float 0) as [tr [o|saved]]; cbn in *.
  - intuition discriminate.
  - exists (VideoCapture ip :: PbarOpen total (basename ip) :: tr), saved.
    split; [reflexivity|]. cbn. intuition discriminate.
Qed.

(** Every run of [main] either stops before the video is opened, having
    only prompted, tested the input file and made the directory, or goes
    on with [extract]. *)
Lemma main_cases (w : World) (fuel : nat) :
  (exists tr o,
      main w fuel = (tr, inl o) /\
      Forall (fun e => match e with
                       | Input _ | IsFile _ | MakeDirs _ => True
                       | _ => False
                       end) tr) \/
  (exists ip od i,
      main w fuel =
      (prompts ++ [IsFile ip; MakeDirs od] ++ fst (extract w fuel ip od i),
       snd (extract w fuel ip od i))).
Proof.
  destruct (stdin w) as [|l1 [|l2 [|l3 rest]]] eqn:Hin.
  1-3: left; unfold main, ask; rewrite Hin; cbn [nth_error];
       do 2 eexists; split; [reflexivity|]; repeat constructor.
  assert (Hp : (exists o, parse_interval (Py.strip l3) = stop o) \/
               (exists i, parse_interval (Py.strip l3) = pure i)).
  { unfold parse_interval.
    destruct (Py.float_of_string (Py.strip l3)) as [e|i].
    - left. destruct e; eexists; reflexivity.
    - destruct (i <=? 0)%float; [left|right]; eexists; reflexivity. }
  destruct Hp as [[o Hp]|[i Hp]].
  - left. rewrite (main_refused w fuel l1 l2 l3 rest o Hin Hp).
    do 2 eexists; split; [reflexivity|]. repeat constructor.
  - rewrite (main_parsed w fuel l1 l2 l3 rest i Hin Hp).
    destruct (isfile w (Py.strip l1)).
    2:{ left. do 2 eexists; split; [reflexivity|]; repeat constructor. }
    destruct (makedirs w (Py.strip l2)).
    2:{ left. do 2 eexists; split; [reflexivity|]; repeat constructor. }
    right. exists (Py.strip l1), (Py.strip l2), i. reflexivity.
Qed.

(** ** Release of the decoder *)

(** C2, as amended.  The decoder is released by the line that follows
    the loop and by nothing else.  A run that ends normally, which is a
    run whose loop was left by one of its two [break]s (decode failure,
    or the clock past the duration), closes the bar, releases the
    decoder exactly once and prints the summary, in that order, as its
    last three events.  A run that ends in any other way, by
    [SystemExit], by an exception that escapes the loop or the set-up
    before it, or by being cut off, never releases the decoder. *)
Theorem release_follows_break (w : World) (fuel : nat) :
  match snd (main w fuel) with
  | inr _ =>
      exists tr saved od i,
        fst (main w fuel) = tr ++ [PbarClose; Release; PrintSummary saved od i] /\
        ~ In Release tr
  | inl _ => ~ In Release (fst (main w fuel))
  end.
Proof.
  destruct (main_cases w fuel) as [(tr & o & -> & Htr)|(ip & od & i & ->)].
  - cbn. intros Hin. rewrite Forall_forall in Htr. exact (Htr _ Hin).
  - cbn [fst snd]. pose proof (extract_release w fuel ip od i) as H.
    destruct (snd (extract w fuel ip od i)) as [o|[]].
    + intros Hin. apply in_app_or in Hin. destruct Hin as [Hin|Hin].
      * cbn in Hin. intuition discriminate.
      * apply in_app_or in Hin. destruct Hin as [Hin|Hin]; [|tauto].
        cbn in Hin. intuition discriminate.
    + destruct H as (tr & saved & -> & Hno).
      exists (prompts ++ [IsFile ip; MakeDirs od] ++ tr), saved, od, i.
      split; [now rewrite <- !app_assoc|].
      intros Hin. apply in_app_or in Hin. destruct Hin as [Hin|Hin].
      * cbn in Hin. intuition discriminate.
      * apply in_app_or in Hin. destruct Hin as [Hin|Hin]; [|tauto].
        cbn in Hin. intuition discriminate.
Qed.

(** C2 fails as stated: two runs in which an exception escapes the loop
    after the video was opened, and the run ends without a release.  In
    the first the image write raises; in the second the interval is
    [nan], the frame rate is unknown, and the second iteration raises
    [ValueError] while it formats the file name. *)
Lemma raising_write_skips_release :
  main (session 10 1 "2.0" ImWriteRaises) 5 =
    (prompts ++
     [IsFile "in.mp4"; MakeDirs "out"; VideoCapture "in.mp4";
      PbarOpen (Some 6) "in.mp4";
      SetPosMsec 0; Read true;
      ImWrite "out/frame_00_00_00.000.png" ImWriteRaises],
     inl (Uncaught CvError)) /\
  main (session 10 0 "nan" Written) 5 =
    (prompts ++
     [IsFile "in.mp4"; MakeDirs "out"; VideoCapture "in.mp4";
      PbarOpen None "in.mp4";
      SetPosMsec 0; Read true;
      ImWrite "out/frame_00_00_00.000.png" Written; PbarUpdate;
      SetPosMsec nan; Read true],
     inl (Uncaught ValueError)).
Proof. split; vm_compute; reflexivity. Qed.

(** [float] on a string raises nothing but [ValueError]. *)
Lemma float_of_string_raises (s : string) (e : PyExn) :
  Py.float_of_string s = inl e -> e = ValueError.
Proof.
  unfold Py.float_of_string. cbv zeta.
  destruct (Py.sign _) as [neg l].
  destruct (_ || _); [discriminate|].
  destruct (String.eqb _ "nan"); [discriminate|].
  destruct (Py.digitpart l 0 0) as [[[m k] r]|].
  - destruct r as [|c r'];
      [|destruct (Ascii.eqb c ".");
        [destruct (Py.digitpart r' m 0) as [[[m' k'] r'']|]|]];
      cbn [orb]; try (destruct (Py.exponent _); intros [= <-]; reflexivity).
  - destruct l as [|c r'];
      [|destruct (Ascii.eqb c ".");
        [destruct (Py.digitpart r' 0 0) as [[[m' k'] r'']|]|]];
      cbn [orb]; try (destruct (Py.exponent _)); intros [= <-]; reflexivity.
Qed.

(** Lines 36-41 end the run with the invalid-interval message or let an
    interval through. *)
Lemma parse_interval_cases (s : string) :
  parse_interval s = stop (SystemExit InvalidInterval) \/
  exists i, parse_interval s = pure i /\
            Py.float_of_string s = inr i /\ (i <=? 0)%float = false.
Proof.
  unfold parse_interval.
  destruct (Py.float_of_string s) as [e|i] eqn:Hf.
  - left. now rewrite (float_of_string_raises s e Hf).
  - destruct (i <=? 0)%float eqn:Hle; [now left|right; now exists i].
Qed.

(** ** Validation comes first *)

(** C5.  If the interval does not parse, or parses to a value [<= 0],
    the process ends with the invalid-interval message right after the
    prompts; if the interval is accepted but the input path is not an
    existing file, it ends with the file-not-found message right after
    the file test.  Either way nothing but prompts and the file test has
    happened: no directory was made, the video was not opened and no
    file was written. *)
Theorem rejected_input_touches_nothing
  (w : World) (fuel : nat) (l1 l2 l3 : string) (rest : list string) :
  stdin w = l1 :: l2 :: l3 :: rest ->
  Py.float_of_string (Py.strip l3) = inl ValueError \/
  (exists x, Py.float_of_string (Py.strip l3) = inr x /\ (x <=? 0)%float = true) \/
  isfile w (Py.strip l1) = false ->
  (main w fuel = (prompts, inl (SystemExit InvalidInterval)) \/
   main w fuel = (prompts ++ [IsFile (Py.strip l1)],
                  inl (SystemExit (InputNotFound (Py.strip l1))))) /\
  Forall harmless (fst (main w fuel)).
Proof.
  intros Hin Hbad.
  assert (H : main w fuel = (prompts, inl (SystemExit InvalidInterval)) \/
              main w fuel = (prompts ++ [IsFile (Py.strip l1)],
                             inl (SystemExit (InputNotFound (Py.strip l1))))).
  { destruct Hbad as [Hf|[(x & Hf & Hx)|Hfile]].
    - left. apply (main_refused w fuel l1 l2 l3 rest _ Hin).
      unfold parse_interval. now rewrite Hf.
    - left. apply (main_refused w fuel l1 l2 l3 rest _ Hin).
      unfold parse_interval. now rewrite Hf, Hx.
    - destruct (parse_interval_cases (Py.strip l3)) as [Hp|(i & Hp & _)].
      + left. exact (main_refused w fuel l1 l2 l3 rest _ Hin Hp).
      + right. rewrite (main_parsed w fuel l1 l2 l3 rest i Hin Hp), Hfile.
        reflexivity. }
  split; [exact H|].
  destruct H as [-> | ->]; cbn; repeat constructor.
Qed.

(** The interval [-5] is refused before anything is touched. *)
Lemma rejected_negative_interval :
  (main (session 10 1 "-5" Written) 5 = (prompts, inl (SystemExit InvalidInterval)) \/
   main (session 10 1 "-5" Written) 5 =
     (prompts ++ [IsFile "in.mp4"], inl (SystemExit (InputNotFound "in.mp4")))) /\
  Forall harmless (fst (main (session 10 1 "-5" Written) 5)).
Proof.
  apply (rejected_input_touches_nothing (session 10 1 "-5" Written) 5
           "in.mp4" "out" "-5" []).
  - reflexivity.
  - right. left.
    exists (-5)%float. split; vm_compute; reflexivity.
Defined.

(** ** Intervals that are not finite *)

(** C9.  The validation lets [nan] and [inf] through: both parse, and
    neither is [<= 0].  A session whose third line is one of them does
    not end with the invalid-interval message; it goes on to the file
    test and, when the input file exists and the directory can be made,
    to opening the video.  With the interval [nan] the test that ends
    the loop, [current_time > duration_sec] after the clock advanced, is
    false whatever the clock and the duration are. *)
Theorem nan_inf_pass_validation
  (w : World) (fuel : nat) (l1 l2 l3 : string) (rest : list string) :
  stdin w = l1 :: l2 :: l3 :: rest ->
  Py.strip l3 = "nan"%string \/ Py.strip l3 = "inf"%string ->
  (parse_interval "nan" = pure nan /\ parse_interval "inf" = pure infinity) /\
  snd (main w fuel) <> inl (SystemExit InvalidInterval) /\
  (exists tr, fst (main w fuel) = prompts ++ IsFile (Py.strip l1) :: tr) /\
  (isfile w (Py.strip l1) = true -> makedirs w (Py.strip l2) = true ->
   In (VideoCapture (Py.strip l1)) (fst (main w fuel))) /\
  (forall t d : float, (d <? t + nan)%float = false).
Proof.
  intros Hin Hl3.
  assert (Hnan : parse_interval "nan" = pure nan) by (vm_compute; reflexivity).
  assert (Hinf : parse_interval "inf" = pure infinity) by (vm_compute; reflexivity).
  assert (Hp : exists i, parse_interval (Py.strip l3) = pure i).
  { destruct Hl3 as [-> | ->]; eexists; eassumption. }
  destruct Hp as [i Hp].
  rewrite (main_parsed w fuel l1 l2 l3 rest i Hin Hp).
  split; [now split|].
  destruct (extract_opens w fuel (Py.strip l1) (Py.strip l2) i) as [tr' Htr'].
  pose proof (extract_not_invalid w fuel (Py.strip l1) (Py.strip l2) i) as Hne.
  repeat split.
  - destruct (isfile w (Py.strip l1)); [|discriminate].
    destruct (makedirs w (Py.strip l2)); [exact Hne|discriminate].
  - destruct (isfile w (Py.strip l1)); [|now exists []].
    destruct (makedirs w (Py.strip l2)); cbn [fst]; eexists; reflexivity.
  - intros -> ->. cbn [fst]. rewrite Htr'.
    apply in_or_app. right. cbn. tauto.
  - intros t d. rewrite add_nan_r. apply ltb_nan_r.
Qed.

(** The interval [nan] on a ten-second video. *)
Lemma nan_interval_passes :
  (parse_interval "nan" = pure nan /\ parse_interval "inf" = pure infinity) /\
  snd (main (session 10 1 "nan" Written) 5) <> inl (SystemExit InvalidInterval) /\
  (exists tr, fst (main (session 10 1 "nan" Written) 5)
              = prompts ++ IsFile "in.mp4" :: tr) /\
  (true = true -> true = true ->
   In (VideoCapture "in.mp4") (fst (main (session 10 1 "nan" Written) 5))) /\
  (forall t d : float, (d <? t + nan)%float = false).
Proof.
  apply (nan_inf_pass_validation (session 10 1 "nan" Written) 5
           "in.mp4" "out" "nan" []).
  - reflexivity.
  - left. reflexivity.
Defined.

(** ** An interval beyond the duration *)

(** The frame at the start of the clock is named after [0.0]. *)
Lemma filename_zero : filename 0%float = inr "frame_00_00_00.000.png"%string.
Proof. vm_compute. reflexivity. Qed.

(** C6.  If the interval is strictly larger than the duration and the
    decoder returns a frame at position 0 (and the write does not
    raise), the loop does one iteration: it saves the frame of timestamp
    0 as [frame_00_00_00.000.png], counts 1 and stops, the clock [0.0 +
    interval] being past the duration. *)
Theorem interval_beyond_duration_one_frame
  (w : World) (od : string) (i d : float) (fuel : nat) (frame : Frame) :
  (d <? i)%float = true ->
  read_at w 0%float = Some frame ->
  imwrite w (Py.path_join od "frame_00_00_00.000.png") frame <> ImWriteRaises ->
  loop w od i d (S fuel) 0%float 0 =
    ([SetPosMsec 0; Read true;
      ImWrite (Py.path_join od "frame_00_00_00.000.png")
        (imwrite w (Py.path_join od "frame_00_00_00.000.png") frame);
      PbarUpdate], inr 1).
Proof.
  intros Hd Hr Hw.
  apply (loop_last w od i d fuel 0%float 0 frame "frame_00_00_00.000.png").
  - exact Hr.
  - exact filename_zero.
  - exact Hw.
  - now rewrite ltb_zero_add.
Qed.

(** A ten-second video sampled every 60 seconds. *)
Lemma minute_interval_one_frame :
  loop (session 10 1 "60" Written) "out" 60 10 1 0%float 0 =
    ([SetPosMsec 0; Read true;
      ImWrite "out/frame_00_00_00.000.png" Written; PbarUpdate], inr 1).
Proof.
  apply (interval_beyond_duration_one_frame
           (session 10 1 "60" Written) "out" 60 10 0 []).
  - vm_compute. reflexivity.
  - reflexivity.
  - discriminate.
Defined.

(** ** No frame rate *)

(** Without a positive frame rate the duration is [0]. *)
Lemma duration_without_fps (w : World) (d : float) :
  duration_of w = inr d -> (0 <? prop_fps w)%float = false -> d = 0%float.
Proof.
  unfold duration_of. intros H Hfps. rewrite Hfps in H.
  destruct (if Py.nonzero (prop_frame_count w) then Py.int (prop_frame_count w)
            else ret 0) as [e|n]; unfold bind, ret in H.
  - discriminate.
  - injection H as <-. reflexivity.
Qed.

(** C8, as amended.  When the backend reports no positive frame rate,
    the duration is taken to be 0, and for every interval that is
    greater than 0 the loop seeks and reads exactly once, at position 0:
    if the read fails it counts nothing, and if it succeeds (and the
    write does not raise) it counts one frame; in both cases it stops
    there. *)
Theorem no_fps_single_attempt
  (w : World) (od : string) (i d : float) (fuel : nat) :
  duration_of w = inr d ->
  (0 <? prop_fps w)%float = false ->
  (0 <? i)%float = true ->
  d = 0%float /\
  seeks (fst (loop w od i d (S fuel) 0%float 0)) = [0%float] /\
  match read_at w 0%float with
  | None => snd (loop w od i d (S fuel) 0%float 0) = inr 0
  | Some frame =>
      imwrite w (Py.path_join od "frame_00_00_00.000.png") frame <> ImWriteRaises ->
      snd (loop w od i d (S fuel) 0%float 0) = inr 1
  end.
Proof.
  intros Hd Hfps Hi.
  assert (Hz : d = 0%float) by (eapply duration_without_fps; eassumption).
  subst d. split; [reflexivity|].
  rewrite loop_cases. change (0 * 1000)%float with 0%float.
  rewrite filename_zero. cbv zeta.
  destruct (read_at w 0%float) as [frame|]; [|split; reflexivity].
  rewrite ltb_zero_add, Hi.
  destruct (imwrite w (Py.path_join od "frame_00_00_00.000.png") frame);
    (split; [reflexivity|]); intros Hw; try reflexivity.
  now elim Hw.
Qed.

(** A video with no frame rate, sampled every two seconds. *)
Lemma no_fps_two_second_interval :
  0%float = 0%float /\
  seeks (fst (loop (session 10 0 "2.0" Written) "out" 2 0 1 0%float 0)) = [0%float] /\
  (Written <> ImWriteRaises ->
   snd (loop (session 10 0 "2.0" Written) "out" 2 0 1 0%float 0) = inr 1).
Proof.
  apply (no_fps_single_attempt (session 10 0 "2.0" Written) "out" 2 0 0).
  - vm_compute. reflexivity.
  - vm_compute. reflexivity.
  - vm_compute. reflexivity.
Defined.

(** C8 fails as stated: with the interval [nan], which the validation
    lets through, and no frame rate, the duration is 0 and the loop
    seeks a second time, to the position [nan]. *)
Lemma nan_interval_second_attempt :
  duration_of (session 10 0 "nan" Written) = inr 0%float /\
  parse_interval "nan" = pure nan /\
  seeks (fst (main (session 10 0 "nan" Written) 5)) = [0%float; nan].
Proof. repeat split; vm_compute; reflexivity. Qed.

(** ** The millisecond field *)

(** C4 fails on the code.  A one-second video (30 frames at 30 frames
    per second) sampled every 0.1 s: the eleventh clock value is
    0.9999999999999999, whose millisecond remainder rounds to 1000, and
    the eleventh file is [frame_00_00_00.1000.png], with a four-digit
    millisecond field. *)
Theorem millisecond_field_1000 :
  snd (main (session 30 30 "0.1" Written) 20) = inr tt /\
  nth_error (image_paths (fst (main (session 30 30 "0.1" Written) 20))) 10
  = Some "out/frame_00_00_00.1000.png"%string /\
  (exists i, parse_interval "0.1" = pure i /\
             timestamp (clock i 10) = inr (0, 0, 0, 1000)).
Proof.
  split; [vm_compute; reflexivity|]. split; [vm_compute; reflexivity|].
  exists 0x1.999999999999ap-4%float. split; vm_compute; reflexivity.
Qed.

(** ** The count and the files *)

Lemma image_paths_app (a b : list Event) :
  image_paths (a ++ b) = image_paths a ++ image_paths b.
Proof. apply flat_map_app. Qed.






(** ** The number of frames saved *)





(** ** The order of file names *)

Lemma ascii_compare_refl (c : ascii) : (c ?= c)%char = Eq.
Proof. unfold Ascii.compare. apply N.compare_refl. Qed.

Lemma string_compare_refl (s : string) : (s ?= s)%string = Eq.
Proof.
  induction s as [|c s IH]; [reflexivity|].
  cbn. now rewrite ascii_compare_refl.
Qed.

(** A common prefix does not count in the comparison. *)
Lemma compare_app_same (p a b : string) :
  (p ++ a ?= p ++ b)%string = (a ?= b)%string.
Proof.
  induction p as [|c p IH]; [reflexivity|].
  cbn. now rewrite ascii_compare_refl.
Qed.

(** Two prefixes of one length are compared first. *)
Lemma compare_app_length (a a' b b' : string) :
  String.length a = String.length a' ->
  (a ++ b ?= a' ++ b')%string = lex (a ?= a')%string (b ?= b')%string.
Proof.
  revert a'. induction a as [|c a IH]; intros [|c' a'] Hlen; try discriminate.
  - reflexivity.
  - cbn. destruct (c ?= c')%char; try reflexivity.
    apply IH. now injection Hlen.
Qed.

Lemma in_below (n : nat) (a : Z) : 0 <= a < Z.of_nat n -> In a (below n).
Proof.
  intros H. unfold below. apply in_map_iff. exists (Z.to_nat a).
  split; [lia|]. apply in_seq. lia.
Qed.

Lemma same_comparison_eq (c1 c2 : comparison) :
  same_comparison c1 c2 = true -> c1 = c2.
Proof. destruct c1, c2; now intros. Qed.

Lemma padding_faithful_spec (width n : nat) :
  padding_faithful width n = true ->
  forall a b, 0 <= a < Z.of_nat n -> 0 <= b < Z.of_nat n ->
    String.length (Py.format_0d width a) = width /\
    (Py.format_0d width a ?= Py.format_0d width b)%string = (a ?= b).
Proof.
  unfold padding_faithful. intros H a b Ha Hb.
  rewrite forallb_forall in H.
  specialize (H (a, Py.format_0d width a)).
  rewrite andb_true_iff, forallb_forall in H.
  destruct H as [Hlen Hcmp].
  { apply in_map_iff. exists a. split; [reflexivity|now apply in_below]. }
  split; [now apply Nat.eqb_eq|].
  apply same_comparison_eq.
  apply (Hcmp (b, Py.format_0d width b)).
  apply in_map_iff. exists b. split; [reflexivity|now apply in_below].
Qed.

Lemma two_digits_faithful : padding_faithful 2 100 = true.
Proof. vm_compute. reflexivity. Qed.

Lemma three_digits_faithful : padding_faithful 3 1000 = true.
Proof. vm_compute. reflexivity. Qed.

Lemma lex_eq_r (c : comparison) : lex c Eq = c.
Proof. now destruct c. Qed.

(** As long as every field fits its width, file names compare as their
    fields do. *)
Lemma frame_name_compare (f g : Z * Z * Z * Z) :
  fits f -> fits g ->
  (frame_name f ?= frame_name g)%string = fields_compare f g.
Proof.
  destruct f as [[[h1 m1] s1] ms1], g as [[[h2 m2] s2] ms2].
  intros (Hh1 & Hm1 & Hs1 & Hms1) (Hh2 & Hm2 & Hs2 & Hms2).
  pose proof (padding_faithful_spec 2 100 two_digits_faithful) as P2.
  pose proof (padding_faithful_spec 3 1000 three_digits_faithful) as P3.
  destruct (P2 h1 h2 ltac:(lia) ltac:(lia)) as [Lh Ch].
  destruct (P2 h2 h1 ltac:(lia) ltac:(lia)) as [Lh' _].
  destruct (P2 m1 m2 ltac:(lia) ltac:(lia)) as [Lm Cm].
  destruct (P2 m2 m1 ltac:(lia) ltac:(lia)) as [Lm' _].
  destruct (P2 s1 s2 ltac:(lia) ltac:(lia)) as [Ls Cs].
  destruct (P2 s2 s1 ltac:(lia) ltac:(lia)) as [Ls' _].
  destruct (P3 ms1 ms2 ltac:(lia) ltac:(lia)) as [Lms Cms].
  destruct (P3 ms2 ms1 ltac:(lia) ltac:(lia)) as [Lms' _].
  unfold frame_name, fields_compare.
  rewrite compare_app_same.
  rewrite compare_app_length, Ch by congruence. f_equal.
  rewrite (compare_app_same "_").
  rewrite compare_app_length, Cm by congruence. f_equal.
  rewrite (compare_app_same "_").
  rewrite compare_app_length, Cs by congruence. f_equal.
  rewrite (compare_app_same ".").
  rewrite compare_app_length, Cms by congruence.
  now rewrite string_compare_refl, lex_eq_r.
Qed.

(** The name of a frame is the name of its timestamp fields. *)
Lemma filename_fields (i : float) (k : nat) (name : string) :
  filename (clock i k) = inr name -> name = frame_name (fields_at i k).
Proof.
  unfold filename, fields_at, bind, ret.
  destruct (timestamp (clock i k)) as [e|f]; [discriminate|].
  now intros [= <-].
Qed.

Lemma string_app_assoc (a b c : string) :
  ((a ++ b) ++ c)%string = (a ++ (b ++ c))%string.
Proof. induction a as [|x a IH]; cbn; [reflexivity|now rewrite IH]. Qed.

(** Every frame lands under one and the same directory prefix. *)
Lemma path_join_frame_name (od : string) :
  exists p, forall f, Py.path_join od (frame_name f) = (p ++ frame_name f)%string.
Proof.
  unfold Py.path_join.
  destruct (String.eqb od "" ||
            Ascii.eqb (List.last (list_ascii_of_string od) "/"%char) "/").
  - exists od. now intros [[[hh mm] ss] ms].
  - exists (od ++ "/")%string. intros [[[hh mm] ss] ms].
    now rewrite string_app_assoc.
Qed.

(** The images of a run are the frames of the successive clock values. *)
Lemma loop_paths (w : World) (od : string) (i d : float) (fuel : nat) :
  forall (k : nat) (s : Z),
  exists m,
    image_paths (fst (loop w od i d fuel (clock i k) s))
    = List.map (fun j => Py.path_join od (frame_name (fields_at i j))) (List.seq k m).
Proof.
  induction fuel as [|fuel IH]; intros k s; [now exists O|].
  rewrite loop_cases.
  destruct (read_at w (clock i k * 1000)%float) as [frame|]; [|now exists O].
  destruct (filename (clock i k)) as [e|name] eqn:Hn; [now exists O|].
  apply filename_fields in Hn. subst name. cbv zeta.
  destruct (IH (S k) (s + 1)) as [m Hm]. cbn [clock] in Hm.
  destruct (imwrite w (Py.path_join od (frame_name (fields_at i k))) frame);
    [| |now exists 1%nat].
  all: destruct (d <? clock i k + i)%float; [now exists 1%nat|].
  all: destruct (loop w od i d fuel (clock i k + i)%float (s + 1)) as [tr res];
    exists (S m); cbn [fst] in *; rewrite image_paths_app, Hm; reflexivity.
Qed.

Lemma fields_lt_iff (a1 a2 a3 a4 b1 b2 b3 b4 : Z) :
  fields_lt (a1, a2, a3, a4) (b1, b2, b3, b4) <->
  a1 < b1 \/ a1 = b1 /\
  (a2 < b2 \/ a2 = b2 /\ (a3 < b3 \/ a3 = b3 /\ a4 < b4)).
Proof.
  unfold fields_lt, fields_compare.
  destruct (Z.compare_spec a1 b1), (Z.compare_spec a2 b2),
    (Z.compare_spec a3 b3), (Z.compare_spec a4 b4);
    cbn [lex]; split; intros Hlt; try discriminate; try reflexivity; lia.
Qed.

Lemma fields_lt_trans (f g h : Z * Z * Z * Z) :
  fields_lt f g -> fields_lt g h -> fields_lt f h.
Proof.
  destruct f as [[[a1 a2] a3] a4], g as [[[b1 b2] b3] b4], h as [[[c1 c2] c3] c4].
  rewrite !fields_lt_iff. lia.
Qed.

(** Fields that increase from each saved frame to the next increase
    along the whole run. *)
Lemma fields_lt_chain (F : nat -> Z * Z * Z * Z) (m : nat) :
  (forall k, (S k < m)%nat -> fields_lt (F k) (F (S k))) ->
  forall j k, (j < k)%nat -> (k < m)%nat -> fields_lt (F j) (F k).
Proof.
  intros Hstep j k Hjk. induction Hjk as [|k Hjk IH]; intros Hk.
  - now apply Hstep.
  - apply fields_lt_trans with (F k); [apply IH; lia|now apply Hstep].
Qed.

Lemma sorted_map_seq {A : Type} (R : A -> A -> Prop) (g : nat -> A) (m : nat) :
  forall k0,
    (forall j k, (k0 <= j)%nat -> (j < k)%nat -> (k < k0 + m)%nat -> R (g j) (g k)) ->
    StronglySorted R (List.map g (List.seq k0 m)).
Proof.
  induction m as [|m IH]; intros k0 H; [constructor|].
  cbn. constructor.
  - apply IH. intros j k Hj Hjk Hk. apply H; lia.
  - apply Forall_forall. intros x Hx. apply in_map_iff in Hx.
    destruct Hx as (k & <- & Hk). apply in_seq in Hk. apply H; lia.
Qed.

Lemma sorted_nodup {A : Type} (R : A -> A -> Prop) (l : list A) :
  (forall x, ~ R x x) -> StronglySorted R l -> NoDup l.
Proof.
  intros Hirr. induction 1 as [|a l _ IH Hall]; constructor; [|exact IH].
  intros Hin. rewrite Forall_forall in Hall. exact (Hirr a (Hall a Hin)).
Qed.

Lemma ticks_3600 : ticks 3600 = Some (3600 * 2 ^ 1074).
Proof. vm_compute. reflexivity. Qed.

Lemma ticks_60 : ticks 60 = Some (60 * 2 ^ 1074).
Proof. vm_compute. reflexivity. Qed.

(** The part of a number after the point is on the grid of the number. *)
Lemma fraction_grid (x : float) (X : Z) :
  ticks x = Some X -> 0 <= X ->
  exists a, 0 <= a /\ (X mod 2 ^ 1074) mod 2 ^ a = 0 /\ X mod 2 ^ 1074 < 2 ^ (53 + a).
Proof.
  intros Hx HX.
  assert (PU : 0 < 2 ^ 1074) by (apply Z.pow_pos_nonneg; lia).
  destruct (ticks_nonneg_inv x X Hx HX) as [[-> _]|(HX' & m & e & _ & B & EX)].
  - exists 0. rewrite Z.mod_0_l by lia. repeat split; try lia.
    all: apply Z.pow_pos_nonneg; lia.
  - pose proof (bounded_inv _ _ B) as (Le & Lm & _).
    destruct (Z.le_gt_cases e 0) as [He|He].
    + exists (e + 1074). split; [lia|].
      assert (EU : 2 ^ 1074 = 2 ^ (- e) * 2 ^ (e + 1074)).
      { rewrite <- Z.pow_add_r by lia. f_equal. lia. }
      assert (Pe : 0 < 2 ^ (e + 1074)) by (apply Z.pow_pos_nonneg; lia).
      assert (Pn : 0 < 2 ^ (- e)) by (apply Z.pow_pos_nonneg; lia).
      rewrite EX, EU, Z.mul_mod_distr_r by lia.
      split; [apply Z.mod_mul; lia|].
      pose proof (Z.mod_pos_bound (Zpos m) (2 ^ (- e)) Pn).
      pose proof (Z.mod_le (Zpos m) (2 ^ (- e)) ltac:(lia) Pn).
      rewrite (Z.pow_add_r 2 53 (e + 1074)) by lia.
      apply Z.mul_lt_mono_pos_r; lia.
    + exists 0. split; [lia|].
      assert (E0 : X mod 2 ^ 1074 = 0).
      { rewrite EX. replace (e + 1074) with (e + 1074) by lia.
        rewrite (Z.pow_add_r 2 e 1074), Z.mul_assoc by lia. apply Z.mod_mul. lia. }
      rewrite E0. split; [reflexivity|apply Z.pow_pos_nonneg; lia].
Qed.

(** The fields of a clock value under 100 hours: hours, minutes and
    whole seconds are those of the whole seconds of the clock, and the
    milliseconds are within half a millisecond (and a rounding of the
    product) of the part after the point. *)
Lemma timestamp_ticks (t : float) (T : Z) :
  ticks t = Some T -> 0 <= T < 360000 * 2 ^ 1074 ->
  exists ms,
    timestamp t
    = inr (T / 2 ^ 1074 / 3600, T / 2 ^ 1074 mod 3600 / 60, T / 2 ^ 1074 mod 60, ms) /\
    0 <= ms /\
    2000 * (T mod 2 ^ 1074) - 2 ^ 1032 - 2 ^ 1074 < 2 * ms * 2 ^ 1074
      <= 2000 * (T mod 2 ^ 1074) + 2 ^ 1032 + 2 ^ 1074.
Proof.
  intros Ht [T0 T1].
  assert (E1032 : 2 ^ 1032 = 2 * 2 ^ 1031)
    by (change 1032 with (1 + 1031); rewrite (Z.pow_add_r 2 1 1031) by lia; reflexivity).
  assert (E53 : 2 ^ (53 + 1074) = 2 ^ 53 * 2 ^ 1074) by (apply Z.pow_add_r; lia).
  assert (E2000 : 2 ^ (53 + 1074) <= 2 ^ 2000) by (apply Z.pow_le_mono_r; lia).
  change (2 ^ 53) with 9007199254740992 in E53.
  set (U := 2 ^ 1074) in *.
  assert (PU : 0 < U) by (apply Z.pow_pos_nonneg; lia).
  pose proof (Z.div_mod T U ltac:(lia)) as DM.
  pose proof (Z.mod_pos_bound T U PU) as [F0 F1].
  assert (S0 : 0 <= T / U) by (apply Z.div_pos; lia).
  assert (S1 : T / U < 360000) by (apply Z.div_lt_upper_bound; lia).
  set (S := T / U) in *. set (F := T mod U) in *.
  (* hours *)
  destruct (floordiv_ticks t 3600 T (3600 * U) Ht ticks_3600) as (q1 & Eq1 & Tq1);
    [fold U; lia|lia|apply Z.mod_mul; lia|].
  assert (Q1 : T / (3600 * U) = S / 3600).
  { unfold S. rewrite Z.div_div by lia. f_equal; lia. }
  rewrite Q1 in Tq1.
  assert (Ei1 : Py.int q1 = inr (S / 3600)).
  { rewrite (int_ticks q1 _ Tq1).
    - fold U. rewrite Z.div_mul by lia. reflexivity.
    - apply Z.mul_nonneg_nonneg; [apply Z.div_pos|]; lia. }
  (* minutes *)
  destruct (rem_ticks t 3600 T (3600 * U) Ht ticks_3600) as (r1 & Er1 & Tr1);
    [fold U; lia|lia|].
  assert (R1 : T mod (3600 * U) = F + U * (S mod 3600)).
  { rewrite (Z.mul_comm 3600 U). unfold F, S. apply Z.rem_mul_r; lia. }
  rewrite R1 in Tr1.
  pose proof (Z.mod_pos_bound S 3600 ltac:(lia)) as [M0 M1].
  destruct (floordiv_ticks r1 60 _ (60 * U) Tr1 ticks_60) as (q2 & Eq2 & Tq2);
    [fold U; nia|lia|apply Z.mod_mul; lia|].
  assert (Q2 : (F + U * (S mod 3600)) / (60 * U) = S mod 3600 / 60).
  { rewrite (Z.mul_comm 60 U), <- Z.div_div by lia. f_equal.
    rewrite (Z.mul_comm U), Z.div_add by lia.
    rewrite (Z.div_small F U) by lia. lia. }
  rewrite Q2 in Tq2.
  assert (Ei2 : Py.int q2 = inr (S mod 3600 / 60)).
  { rewrite (int_ticks q2 _ Tq2).
    - fold U. rewrite Z.div_mul by lia. reflexivity.
    - apply Z.mul_nonneg_nonneg; [apply Z.div_pos|]; lia. }
  (* seconds *)
  destruct (rem_ticks t 60 T (60 * U) Ht ticks_60) as (r2 & Er2 & Tr2);
    [fold U; lia|lia|].
  assert (R2 : T mod (60 * U) = F + U * (S mod 60)).
  { rewrite (Z.mul_comm 60 U). unfold F, S. apply Z.rem_mul_r; lia. }
  rewrite R2 in Tr2.
  pose proof (Z.mod_pos_bound S 60 ltac:(lia)) as [N0 N1].
  assert (Ei3 : Py.int r2 = inr (S mod 60)).
  { rewrite (int_ticks r2 _ Tr2) by nia. fold U.
    rewrite (Z.mul_comm U), Z.div_add by lia.
    rewrite (Z.div_small F U) by lia. reflexivity. }
  (* milliseconds *)
  assert (Ei4 : Py.int t = inr S) by (rewrite (int_ticks t T Ht T0); reflexivity).
  assert (Tw : ticks (Py.float_of_Z S) = Some (S * U))
    by (apply float_of_Z_ticks; change (2 ^ 53) with 9007199254740992; lia).
  destruct (fraction_grid t T Ht T0) as (a & Ha & Hg & Hb). fold U F in Hg, Hb.
  assert (Tf : ticks (t - Py.float_of_Z S) = Some F).
  { replace F with (T - S * U) by lia.
    apply (sub_ticks _ _ T (S * U) a Ht Tw); try lia.
    replace (T - S * U) with F by lia. exact Hg. }
  assert (Hms : exists ms,
             Py.round ((t - Py.float_of_Z S) * 1000) = inr ms /\ 0 <= ms /\
             2000 * F - 2 ^ 1032 - U < 2 * ms * U <= 2000 * F + 2 ^ 1032 + U).
  { assert (P31 : 0 < 2 ^ 1031) by (apply Z.pow_pos_nonneg; lia).
    destruct (Z.eq_dec F 0) as [HF|HF].
    - rewrite HF in Tf.
      destruct (round_ticks _ 0 (mul1000_zero _ Tf) ltac:(lia)) as (n & En & n0 & nb).
      fold U in nb. exists n. split; [exact En|]. split; [exact n0|]. lia.
    - assert (HF' : 0 < F < U) by lia.
      destruct (mul1000_ticks _ F Tf HF') as (R & TR & R0 & Rb).
      destruct (round_ticks _ R TR R0) as (n & En & n0 & nb).
      fold U in nb. exists n. split; [exact En|]. split; [exact n0|]. lia. }
  destruct Hms as (ms & Ems & ms0 & msb).
  exists ms. split; [|split; [exact ms0|exact msb]].
  unfold timestamp, bind.
  rewrite Eq1, Ei1, Er1, Eq2, Ei2, Er2, Ei3, Ei4, Ems. reflexivity.
Qed.

Lemma ticks_360000 : ticks 360000 = Some (360000 * 2 ^ 1074).
Proof. vm_compute. reflexivity. Qed.

Lemma ticks_interval_floor :
  ticks 0x1.0624dee6e89d6p-10 = Some (0x10624dee6e89d6 * 2 ^ 1012).
Proof. vm_compute. reflexivity. Qed.

(** An interval of a millisecond and a tenth of a nanosecond outweighs
    the rounding of a clock under 100 hours and of its milliseconds. *)
Lemma interval_floor_margin :
  0 <= 2000 * (0x10624dee6e89d6 * 2 ^ 1012 - 2 ^ 1040) - 2 * 2 ^ 1032 - 2 * 2 ^ 1074.
Proof. vm_compute. discriminate. Qed.

Lemma leb_positive (c i : float) (tc : Z) :
  ticks c = Some tc -> 0 < tc -> (c <=? i)%float = true -> (0 <? i)%float = true.
Proof.
  intros Hc Hpos. destruct (ticks_pos_inv c tc Hc Hpos) as (m & e & Ec & _).
  rewrite leb_spec, ltb_spec, Ec, Prim2SF_zero.
  destruct (Prim2SF i) as [[|]|[|]| |[|] mi ei]; cbn; try discriminate; reflexivity.
Qed.

(** Adding to a zero changes nothing. *)
Lemma add_zero_ticks (x y : float) (b : Z) :
  ticks x = Some 0 -> ticks y = Some b -> 0 < b -> ticks (x + y) = Some b.
Proof.
  intros Hx Hy Hb.
  destruct (ticks_nonneg_inv x 0 Hx ltac:(lia)) as [[_ [s Ex]]|[H _]]; [|lia].
  destruct (ticks_pos_inv y b Hy Hb) as (m & e & Ey & _).
  rewrite <- Hy. unfold ticks. rewrite add_spec, Ex, Ey. reflexivity.
Qed.

(** A sum that stays under 100 hours is less than [2^-34] below the
    exact sum. *)
Lemma add_bracket (x y : float) (a b r : Z) :
  ticks x = Some a -> ticks y = Some b -> 0 <= a -> 0 < b ->
  ticks (x + y) = Some r -> r < 360000 * 2 ^ 1074 ->
  a + b - 2 ^ 1040 < r.
Proof.
  intros Hx Hy Ha Hb Hr Hlt.
  assert (PA : 0 < 2 ^ 1040) by (apply Z.pow_pos_nonneg; lia).
  destruct (Z.eq_dec a 0) as [->|Ha0].
  - rewrite (add_zero_ticks x y b Hx Hy Hb) in Hr. apply some_inj in Hr. lia.
  - destruct (add_ticks_pos x y a b Hx Hy ltac:(lia) Hb) as (R & HR & _ & [Hi|HR']).
    { rewrite Hi in Hr. discriminate. }
    rewrite HR' in Hr. apply some_inj in Hr. subst R.
    set (V := a + b) in *. set (g := Z.max (Z.log2 V - 52) 0) in *.
    assert (Pg : 0 < 2 ^ g) by (apply Z.pow_pos_nonneg; lia).
    assert (HV : V < 360000 * 2 ^ 1074).
    { destruct (Z.lt_ge_cases V (360000 * 2 ^ 1074)) as [|Hge]; [assumption|exfalso].
      pose proof (bracket_lower 6184752906240000 (-34) V ltac:(reflexivity)) as L.
      change (Zpos 6184752906240000 * 2 ^ (-34 + 1074)) with (360000 * 2 ^ 1074) in L.
      specialize (L Hge). cbv zeta in L. fold g in L.
      destruct HR as [->| ->]; lia. }
    assert (Hg : g <= 1040).
    { assert (Z.log2 V < 1093); [|lia].
      apply Z.log2_lt_pow2; [lia|].
      eapply Z.lt_trans; [exact HV|]. vm_compute. reflexivity. }
    assert (P40 : 2 ^ g <= 2 ^ 1040) by (apply Z.pow_le_mono_r; lia).
    pose proof (Z.div_mod V (2 ^ g) ltac:(lia)) as DM.
    pose proof (Z.mod_pos_bound V (2 ^ g) Pg) as [M0 M1].
    destruct HR as [->| ->]; nia.
Qed.

(** A clock under 100 hours has an exact value. *)
Lemma clock_ticks (i : float) (k : nat) :
  (0 <? i)%float = true -> (clock i k <? 360000)%float = true ->
  exists T, ticks (clock i k) = Some T /\ 0 <= T < 360000 * 2 ^ 1074.
Proof.
  intros Hi Hlt.
  assert (PU : 0 < 2 ^ 1074) by (apply Z.pow_pos_nonneg; lia).
  destruct k as [|k].
  - exists 0. split; [exact ticks_zero|lia].
  - destruct (pos_cases _ (clock_pos i k Hi)) as [Hinf|(T & HT & Hpos)].
    + rewrite Hinf in Hlt. discriminate.
    + exists T. split; [exact HT|].
      rewrite (ltb_ticks _ _ _ _ HT ticks_360000) in Hlt.
      apply Z.ltb_lt in Hlt. lia.
Qed.

(** From one clock value under 100 hours to the next the clock grows by
    the interval, less [2^-34] at most. *)
Lemma clock_step_ticks (i : float) (k : nat) (T T' : Z) :
  (0x1.0624dee6e89d6p-10 <=? i)%float = true ->
  ticks (clock i k) = Some T -> 0 <= T ->
  ticks (clock i (S k)) = Some T' -> T' < 360000 * 2 ^ 1074 ->
  T + (0x10624dee6e89d6 * 2 ^ 1012 - 2 ^ 1040) < T'.
Proof.
  intros Hi HT T0 HT' Hlt.
  assert (P12 : 0 < 2 ^ 1012) by (apply Z.pow_pos_nonneg; lia).
  pose proof (leb_positive _ i _ ticks_interval_floor ltac:(lia) Hi) as Hpos.
  destruct (pos_cases i Hpos) as [Hinf|(ti & Hti & Hti0)].
  - exfalso. subst i. cbn [clock] in HT'.
    rewrite (add_infinity_r _ T HT) in HT'. discriminate.
  - rewrite (leb_ticks _ _ _ _ ticks_interval_floor Hti) in Hi.
    apply Z.leb_le in Hi.
    pose proof (add_bracket _ _ T ti T' HT Hti T0 Hti0 HT' Hlt). lia.
Qed.

(** The fields of a clock value under 100 hours whose millisecond field
    is not 1000 fit their widths. *)
Lemma fields_fit (i : float) (k : nat) :
  (0 <? i)%float = true -> (clock i k <? 360000)%float = true ->
  snd (fields_at i k) <> 1000 -> fits (fields_at i k).
Proof.
  intros Hi Hlt.
  destruct (clock_ticks i k Hi Hlt) as (T & HT & T0 & T1).
  destruct (timestamp_ticks _ T HT (conj T0 T1)) as (ms & Ets & ms0 & msb).
  unfold fields_at. rewrite Ets. cbn [snd]. intros Hms.
  assert (E1032 : 2 ^ 1074 = 2 ^ 42 * 2 ^ 1032) by (rewrite <- Z.pow_add_r by lia; reflexivity).
  change (2 ^ 42) with 4398046511104 in E1032.
  assert (P32 : 0 < 2 ^ 1032) by (apply Z.pow_pos_nonneg; lia).
  set (U := 2 ^ 1074) in *. set (B := 2 ^ 1032) in *.
  assert (PU : 0 < U) by lia.
  pose proof (Z.mod_pos_bound T U PU) as [F0 F1].
  assert (S0 : 0 <= T / U) by (apply Z.div_pos; lia).
  assert (S1 : T / U < 360000) by (apply Z.div_lt_upper_bound; lia).
  assert (ms <= 1000) by nia.
  set (S := T / U) in *. clearbody S.
  pose proof (Z.mod_pos_bound S 3600 ltac:(lia)).
  pose proof (Z.mod_pos_bound S 60 ltac:(lia)).
  assert (0 <= S / 3600 <= 99)
    by (split; [apply Z.div_pos; lia|apply Z.lt_succ_r, Z.div_lt_upper_bound; lia]).
  assert (0 <= S mod 3600 / 60 <= 99)
    by (split; [apply Z.div_pos; lia|apply Z.lt_succ_r, Z.div_lt_upper_bound; lia]).
  unfold fits. lia.
Qed.

(** From one saved frame to the next, under 100 hours and with an
    interval of a millisecond and a tenth of a nanosecond at least, the
    fields increase: the whole seconds advance, or the milliseconds
    do. *)
Lemma fields_step (i : float) (k : nat) :
  (0x1.0624dee6e89d6p-10 <=? i)%float = true ->
  (clock i k <? 360000)%float = true ->
  (clock i (S k) <? 360000)%float = true ->
  fields_lt (fields_at i k) (fields_at i (S k)).
Proof.
  intros Hi Hk Hk'.
  assert (P12 : 0 < 2 ^ 1012) by (apply Z.pow_pos_nonneg; lia).
  pose proof (leb_positive _ i _ ticks_interval_floor ltac:(lia) Hi) as Hpos.
  destruct (clock_ticks i k Hpos Hk) as (T & HT & T0 & T1).
  destruct (clock_ticks i (S k) Hpos Hk') as (T' & HT' & T0' & T1').
  pose proof (clock_step_ticks i k T T' Hi HT T0 HT' T1') as Hstep.
  destruct (timestamp_ticks _ T HT (conj T0 T1)) as (ms & Ets & ms0 & msb).
  destruct (timestamp_ticks _ T' HT' (conj T0' T1')) as (ms' & Ets' & ms0' & msb').
  unfold fields_at. rewrite Ets, Ets'. apply fields_lt_iff.
  pose proof interval_floor_margin as K.
  assert (PU0 : 0 < 2 ^ 1074) by (apply Z.pow_pos_nonneg; lia).
  set (U := 2 ^ 1074) in *. set (B := 2 ^ 1032) in *.
  set (A := 2 ^ 1040) in *. set (C := 2 ^ 1012) in *.
  clearbody U B A C.
  pose proof (Z.div_mod T U ltac:(lia)) as DM.
  pose proof (Z.div_mod T' U ltac:(lia)) as DM'.
  pose proof (Z.mod_pos_bound T U PU0) as [F0 F1].
  pose proof (Z.mod_pos_bound T' U PU0) as [F0' F1'].
  assert (S0 : 0 <= T / U) by (apply Z.div_pos; lia).
  assert (Sle : T / U <= T' / U) by (apply Z.div_le_mono; lia).
  set (S := T / U) in *. set (S' := T' / U) in *.
  set (F := T mod U) in *. set (F' := T' mod U) in *.
  clearbody S S' F F'.
  destruct (Z.eq_dec S S') as [->|Hne].
  - assert (ms < ms') by nia. lia.
  - assert (S < S') by lia. clear - H S0.
    pose proof (Z.div_mod S 3600 ltac:(lia)).
    pose proof (Z.div_mod S' 3600 ltac:(lia)).
    pose proof (Z.mod_pos_bound S 3600 ltac:(lia)).
    pose proof (Z.mod_pos_bound S' 3600 ltac:(lia)).
    pose proof (Z.div_mod (S mod 3600) 60 ltac:(lia)).
    pose proof (Z.div_mod (S' mod 3600) 60 ltac:(lia)).
    pose proof (Z.mod_pos_bound (S mod 3600) 60 ltac:(lia)).
    pose proof (Z.mod_pos_bound (S' mod 3600) 60 ltac:(lia)).
    assert (S mod 60 = (S mod 3600) mod 60)
      by (symmetry; apply (Z.mod_unique S 60 (60 * (S / 3600) + S mod 3600 / 60)); lia).
    assert (S' mod 60 = (S' mod 3600) mod 60)
      by (symmetry; apply (Z.mod_unique S' 60 (60 * (S' / 3600) + S' mod 3600 / 60)); lia).
    lia.
Qed.

(** C3, as amended.  In every run whose interval is at least
    0.0010000001 seconds (a millisecond and a tenth of a nanosecond;
    [0x1.0624dee6e89d6p-10] is its float), as long as the clock of every
    saved frame is under 100 hours and no millisecond field is 1000, the
    generated file names are strictly increasing in the order of their
    characters, and so contain no duplicate. *)
Theorem frame_names_sorted
  (w : World) (od : string) (i d : float) (fuel : nat) :
  (0x1.0624dee6e89d6p-10 <=? i)%float = true ->
  (forall k, (k < List.length (image_paths (fst (loop w od i d fuel 0%float 0))))%nat ->
             (clock i k <? 360000)%float = true /\ snd (fields_at i k) <> 1000) ->
  StronglySorted name_lt (image_paths (fst (loop w od i d fuel 0%float 0))) /\
  NoDup (image_paths (fst (loop w od i d fuel 0%float 0))).
Proof.
  destruct (loop_paths w od i d fuel 0%nat 0) as [m Hm]. cbn [clock] in Hm.
  rewrite Hm, length_map, length_seq. intros Hi Hrun.
  assert (P12 : 0 < 2 ^ 1012) by (apply Z.pow_pos_nonneg; lia).
  pose proof (leb_positive _ i _ ticks_interval_floor ltac:(lia) Hi) as Hpos.
  assert (Hfits : forall k, (k < m)%nat -> fits (fields_at i k)).
  { intros k Hk. destruct (Hrun k Hk) as [Hc Hms]. now apply fields_fit. }
  assert (Hstep : forall k, (S k < m)%nat -> fields_lt (fields_at i k) (fields_at i (S k))).
  { intros k Hk. apply (fields_step i k Hi); apply Hrun; lia. }
  assert (Hs : StronglySorted name_lt
                 (List.map (fun j => Py.path_join od (frame_name (fields_at i j)))
                    (List.seq 0 m))).
  { apply sorted_map_seq. intros j k _ Hjk Hk.
    destruct (path_join_frame_name od) as [p Hp].
    unfold name_lt. rewrite !Hp, compare_app_same.
    rewrite frame_name_compare by (apply Hfits; lia).
    apply (fields_lt_chain (fields_at i) m Hstep j k Hjk). lia. }
  split; [exact Hs|].
  apply (sorted_nodup name_lt); [|exact Hs].
  intros x. unfold name_lt. now rewrite string_compare_refl.
Qed.

(** Two seconds of video sampled every 0.3 seconds: seven names in
    order. *)
Lemma frame_names_sorted_two_seconds :
  StronglySorted name_lt
    (image_paths (fst (loop (session 2 1 "0.3" Written) "out"
                         0x1.3333333333333p-2 2 8 0%float 0))) /\
  NoDup (image_paths (fst (loop (session 2 1 "0.3" Written) "out"
                             0x1.3333333333333p-2 2 8 0%float 0))).
Proof.
  apply (frame_names_sorted (session 2 1 "0.3" Written) "out"
           0x1.3333333333333p-2 2 8).
  - vm_compute. reflexivity.
  - intros k Hk.
    do 7 (destruct k as [|k]; [split; [vm_compute; reflexivity|vm_compute; discriminate]|]).
    exfalso. vm_compute in Hk. do 7 apply le_S_n in Hk. inversion Hk.
Defined.

(** C3 fails as stated.  A run over 100 hours of video sampled every
    50 hours writes [frame_100_00_00.000.png] after
    [frame_50_00_00.000.png], and the later name sorts before the
    earlier one.  A run over one second of video sampled every 0.1
    seconds writes [frame_00_00_00.1000.png] (see C4) after
    [frame_00_00_00.900.png], and again the later name sorts before the
    earlier one. *)
Lemma hundred_hours_out_of_order :
  (parse_interval "180000" = pure 180000%float /\
   snd (main (session 360000 1 "180000" Written) 10) = inr tt /\
   image_paths (fst (main (session 360000 1 "180000" Written) 10))
   = ["out/frame_00_00_00.000.png"; "out/frame_50_00_00.000.png";
      "out/frame_100_00_00.000.png"]%string /\
   ("out/frame_100_00_00.000.png" ?= "out/frame_50_00_00.000.png")%string = Lt) /\
  (snd (main (session 30 30 "0.1" Written) 20) = inr tt /\
   nth_error (image_paths (fst (main (session 30 30 "0.1" Written) 20))) 9
   = Some "out/frame_00_00_00.900.png"%string /\
   nth_error (image_paths (fst (main (session 30 30 "0.1" Written) 20))) 10
   = Some "out/frame_00_00_00.1000.png"%string /\
   ("out/frame_00_00_00.1000.png" ?= "out/frame_00_00_00.900.png")%string = Lt).
Proof. repeat split; vm_compute; reflexivity. Qed.

(** * Further properties of the program *)

(** ** End of input at a prompt *)

(** X1.  [ask] turns end of input into [SystemExit]: a session with
    fewer than three lines of input ends with the no-input message at
    the first prompt that finds no line, after prompting once for each
    line present and once more; nothing else has happened. *)
Theorem end_of_input_exits (w : World) (fuel : nat) :
  (List.length (stdin w) < 3)%nat ->
  main w fuel = (firstn (S (List.length (stdin w))) prompts, inl (SystemExit NoInput)).
Proof.
  unfold main, ask. intros Hlen.
  destruct (stdin w) as [|l1 [|l2 [|l3 rest]]]; cbn in Hlen; try lia; reflexivity.
Qed.

Lemma end_of_input_after_two_lines :
  main {| stdin := ["in.mp4"; "out"]%string; isfile := fun _ => true;
          makedirs := fun _ => true; isOpened := fun _ => true;
          prop_fps := 1; prop_frame_count := 10;
          read_at := fun _ => Some []; imwrite := fun _ _ => Written |} 5
  = (prompts, inl (SystemExit NoInput)).
Proof.
  apply (end_of_input_exits
           {| stdin := ["in.mp4"; "out"]%string; isfile := fun _ => true;
              makedirs := fun _ => true; isOpened := fun _ => true;
              prop_fps := 1; prop_frame_count := 10;
              read_at := fun _ => Some []; imwrite := fun _ _ => Written |} 5).
  cbn. lia.
Defined.

(** ** Whitespace around the answers *)

Section StripFront.

Variables (p1 : ascii -> bool) (p2 : ascii -> ascii -> bool)
  (p3 : ascii -> ascii -> ascii -> bool).

Local Abbreviation front := (Py.strip_front p1 p2 p3).

Lemma strip_front_step (a : ascii) (r : list ascii) :
  front (a :: r) =
  if p1 a then front r
  else
    match r with
    | b :: r1 =>
        if p2 a b then front r1
        else
          match r1 with
          | c :: r2 => if p3 a b c then front r2 else a :: r
          | [] => a :: r
          end
    | [] => a :: r
    end.
Proof. reflexivity. Qed.

(** Stripping drops a prefix. *)
Lemma strip_front_suffix (n : nat) :
  forall s, (List.length s <= n)%nat -> exists pre, s = pre ++ front s.
Proof.
  induction n as [|n IH]; intros s Hn.
  - destruct s; [now exists []|cbn in Hn; lia].
  - destruct s as [|a r]; [now exists []|].
    rewrite strip_front_step. cbn [List.length] in Hn.
    destruct (p1 a).
    { destruct (IH r ltac:(lia)) as [pre Hpre].
      exists (a :: pre). cbn [app]. now rewrite <- Hpre. }
    destruct r as [|b r1]; [now exists []|]. cbn [List.length] in Hn.
    destruct (p2 a b).
    { destruct (IH r1 ltac:(lia)) as [pre Hpre].
      exists (a :: b :: pre). cbn [app]. now rewrite <- Hpre. }
    destruct r1 as [|c r2]; [now exists []|]. cbn [List.length] in Hn.
    destruct (p3 a b c); [|now exists []].
    destruct (IH r2 ltac:(lia)) as [pre Hpre].
    exists (a :: b :: c :: pre). cbn [app]. now rewrite <- Hpre.
Qed.

Lemma strip_front_length (s : list ascii) :
  (List.length (front s) <= List.length s)%nat.
Proof.
  destruct (strip_front_suffix (List.length s) s (le_n _)) as [pre Hpre].
  rewrite Hpre at 2. rewrite length_app. lia.
Qed.

(** Stripping twice is stripping once. *)
Lemma strip_front_fix (n : nat) :
  forall s, (List.length s <= n)%nat -> front (front s) = front s.
Proof.
  induction n as [|n IH]; intros s Hn.
  - destruct s; [reflexivity|cbn in Hn; lia].
  - destruct s as [|a r]; [reflexivity|].
    rewrite (strip_front_step a r). cbn [List.length] in Hn.
    destruct (p1 a) eqn:H1; [apply IH; lia|].
    destruct r as [|b r1].
    { rewrite strip_front_step. now rewrite H1. }
    cbn [List.length] in Hn.
    destruct (p2 a b) eqn:H2; [apply IH; lia|].
    destruct r1 as [|c r2].
    { rewrite strip_front_step. now rewrite H1, H2. }
    cbn [List.length] in Hn.
    destruct (p3 a b c) eqn:H3; [apply IH; lia|].
    rewrite strip_front_step. now rewrite H1, H2, H3.
Qed.

(** A prefix of a string that has nothing to strip has nothing to
    strip. *)
Lemma strip_front_prefix (x y : list ascii) :
  front (x ++ y) = x ++ y -> front x = x.
Proof.
  assert (L : forall r z : list ascii,
             (List.length r < List.length z)%nat -> front r = z -> False).
  { intros r z Hl He. pose proof (strip_front_length r) as Hr.
    rewrite He in Hr. lia. }
  destruct x as [|a r]; [reflexivity|].
  cbn [app]. rewrite !strip_front_step.
  destruct (p1 a).
  { intros H. exfalso. refine (L _ _ _ H). cbn [List.length]. lia. }
  destruct r as [|b r1]; [reflexivity|]. cbn [app].
  destruct (p2 a b).
  { intros H. exfalso. refine (L _ _ _ H). cbn [List.length]. lia. }
  destruct r1 as [|c r2]; [reflexivity|]. cbn [app].
  destruct (p3 a b c); [|reflexivity].
  intros H. exfalso. refine (L _ _ _ H). cbn [List.length]. lia.
Qed.

End StripFront.

(** Stripping twice is stripping once. *)
Lemma strip_strip (s : string) : Py.strip (Py.strip s) = Py.strip s.
Proof.
  unfold Py.strip. rewrite list_ascii_of_string_of_list_ascii. f_equal.
  set (m := Py.lstrip (list_ascii_of_string s)).
  assert (Hm : Py.lstrip m = m)
    by (apply (strip_front_fix _ _ _ (List.length (list_ascii_of_string s)));
        apply le_n).
  unfold Py.rstrip at 2 3.
  set (back := Py.strip_front Py.is_space (fun b a => Py.is_space2 a b)
                 (fun c b a => Py.is_space3 a b c)).
  destruct (strip_front_suffix Py.is_space (fun b a => Py.is_space2 a b)
              (fun c b a => Py.is_space3 a b c) (List.length (List.rev m))
              (List.rev m) (le_n _)) as [pre Hpre].
  fold back in Hpre.
  assert (Hr : m = List.rev (back (List.rev m)) ++ List.rev pre).
  { rewrite <- rev_app_distr, <- Hpre. now rewrite rev_involutive. }
  assert (Hl : Py.lstrip (List.rev (back (List.rev m))) = List.rev (back (List.rev m))).
  { apply (strip_front_prefix _ _ _ _ (List.rev pre)).
    rewrite <- Hr. exact Hm. }
  rewrite Hl. unfold Py.rstrip. fold back. rewrite rev_involutive.
  f_equal. apply (strip_front_fix _ _ _ (List.length (List.rev m))). apply le_n.
Qed.

Lemma ask_stripped (w : World) (k : nat) (prompt : string) :
  ask (stripped_input w) k prompt = ask w k prompt.
Proof.
  unfold ask. cbn [stdin stripped_input]. rewrite nth_error_map.
  destruct (nth_error (stdin w) k) as [line|]; cbn; [|reflexivity].
  now rewrite strip_strip.
Qed.

(** X2.  [ask] strips each answer, so whitespace typed around the
    three answers changes nothing: a session runs exactly as the
    session whose lines were stripped beforehand. *)
Theorem surrounding_whitespace_ignored (w : World) (fuel : nat) :
  main (stripped_input w) fuel = main w fuel.
Proof.
  unfold main. rewrite !ask_stripped. reflexivity.
Qed.

(** ** Failures between the checks and the loop *)

(** X3.  After the interval was accepted, the checks come in this
    order.  A missing input file ends the run with the not-found
    message before the directory is made.  When making the directory
    fails, [OSError] escapes before the video is touched.  When the
    video does not open, the output directory has already been made:
    the run ends with the cannot-open message right after the capture
    was created, without reading a frame, opening the bar or releasing
    the capture. *)
Theorem failures_before_the_loop
  (w : World) (fuel : nat) (l1 l2 l3 : string) (rest : list string) (i : float) :
  stdin w = l1 :: l2 :: l3 :: rest ->
  parse_interval (Py.strip l3) = pure i ->
  (isfile w (Py.strip l1) = false ->
   main w fuel =
     (prompts ++ [IsFile (Py.strip l1)],
      inl (SystemExit (InputNotFound (Py.strip l1))))) /\
  (isfile w (Py.strip l1) = true -> makedirs w (Py.strip l2) = false ->
   main w fuel =
     (prompts ++ [IsFile (Py.strip l1); MakeDirs (Py.strip l2)],
      inl (Uncaught OSError))) /\
  (isfile w (Py.strip l1) = true -> makedirs w (Py.strip l2) = true ->
   isOpened w (Py.strip l1) = false ->
   main w fuel =
     (prompts ++ [IsFile (Py.strip l1); MakeDirs (Py.strip l2);
                  VideoCapture (Py.strip l1)],
      inl (SystemExit (CannotOpen (Py.strip l1))))).
Proof.
  intros Hin Hp.
  rewrite (main_parsed w fuel l1 l2 l3 rest i Hin Hp).
  split; [|split].
  - intros ->. reflexivity.
  - intros -> ->. reflexivity.
  - intros -> -> Ho. unfold extract. rewrite Ho. reflexivity.
Qed.

(** The video [in.mp4] exists but does not open: the directory [out]
    has been made all the same. *)
Lemma unopenable_video_leaves_directory :
  main unopenable 5 =
    (prompts ++ [IsFile "in.mp4"; MakeDirs "out"; VideoCapture "in.mp4"],
     inl (SystemExit (CannotOpen "in.mp4"))).
Proof.
  refine (proj2 (proj2 (failures_before_the_loop unopenable 5
                          " in.mp4" "out " "2" [] 2 _ _)) _ _ _).
  - reflexivity.
  - vm_compute. reflexivity.
  - reflexivity.
  - reflexivity.
  - reflexivity.
Defined.

(** ** A frame count that is not a number *)

(** X4.  [int(cap.get(CAP_PROP_FRAME_COUNT) or 0)] guards against a
    zero only: when the backend reports [nan] as the frame count, the
    run ends with [ValueError], and when it reports an infinity, with
    [OverflowError]; in both cases right after the video was opened,
    whatever the interval, before any frame is read, and the capture is
    not released. *)
Theorem frame_count_not_finite
  (w : World) (fuel : nat) (ip od : string) (i : float) :
  isOpened w ip = true ->
  (prop_frame_count w = nan ->
   extract w fuel ip od i = ([VideoCapture ip], inl (Uncaught ValueError))) /\
  (prop_frame_count w = infinity \/ prop_frame_count w = neg_infinity ->
   extract w fuel ip od i = ([VideoCapture ip], inl (Uncaught OverflowError))).
Proof.
  intros Ho.
  split; [intros Hc|intros [Hc|Hc]];
    unfold extract, duration_of; rewrite Ho, Hc; reflexivity.
Qed.

Lemma nan_frame_count_raises :
  extract (session nan 30 "1" Written) 5 "in.mp4" "out" 1
  = ([VideoCapture "in.mp4"], inl (Uncaught ValueError)).
Proof.
  refine (proj1 (frame_count_not_finite (session nan 30 "1" Written) 5
                   "in.mp4" "out" 1 _) _); reflexivity.
Defined.

(** ** A nan interval on a video with a duration *)

Lemma sub_nan_r (x : float) : (x - nan)%float = nan.
Proof.
  apply Prim2SF_inj. rewrite sub_spec, Prim2SF_nan.
  unfold SF64sub. destruct (Prim2SF x); reflexivity.
Qed.

Lemma fmod_nan_r (x : float) : Py.fmod x nan = nan.
Proof.
  unfold Py.fmod. rewrite Prim2SF_nan. destruct (Prim2SF x); reflexivity.
Qed.

(** [x // nan] is nan, and [int] refuses it. *)
Lemma floordiv_nan_r (x : float) : Py.floordiv x nan = inr nan.
Proof.
  unfold Py.floordiv. rewrite fmod_nan_r, sub_nan_r. reflexivity.
Qed.

(** X5.  With the interval [nan] and a video whose duration is greater
    than 0, the estimate for the progress bar, [int(duration_sec //
    interval)], raises [ValueError]: the run ends right after the video
    was opened, before the bar is opened and before any frame is read,
    and the capture is not released. *)
Theorem nan_interval_breaks_estimate
  (w : World) (fuel : nat) (ip od : string) (d : float) :
  isOpened w ip = true ->
  duration_of w = inr d ->
  (0 <? d)%float = true ->
  extract w fuel ip od nan = ([VideoCapture ip], inl (Uncaught ValueError)).
Proof.
  intros Ho Hd Hpos. unfold extract. rewrite Ho, Hd.
  cbv beta iota delta [andthen emit pure stop lift expected_frames].
  rewrite Hpos, floordiv_nan_r. reflexivity.
Qed.

Lemma nan_interval_ten_seconds :
  extract (session 10 1 "nan" Written) 5 "in.mp4" "out" nan
  = ([VideoCapture "in.mp4"], inl (Uncaught ValueError)).
Proof.
  apply (nan_interval_breaks_estimate (session 10 1 "nan" Written) 5
           "in.mp4" "out" 10).
  - reflexivity.
  - vm_compute. reflexivity.
  - vm_compute. reflexivity.
Defined.

(** ** Where the loop seeks and what it writes *)

Lemma seeks_app (a b : list Event) : seeks (a ++ b) = seeks a ++ seeks b.
Proof. apply flat_map_app. Qed.

(** X6.  The loop samples the successive clock values and nothing
    else: its seeks are, in order, 1000 times the clock after 0, 1, 2,
    ... additions of the interval, and the images it hands to the
    writer are, in the same order, the output directory joined with the
    frame names of those clock values; it seeks once for every image
    and at most once more. *)
Theorem loop_samples_the_clock
  (w : World) (od : string) (i d : float) (fuel : nat) :
  exists n m,
    seeks (fst (loop w od i d fuel 0%float 0))
    = List.map (fun k => (clock i k * 1000)%float) (List.seq 0 n) /\
    image_paths (fst (loop w od i d fuel 0%float 0))
    = List.map (fun k => Py.path_join od (frame_name (fields_at i k))) (List.seq 0 m) /\
    (m <= n <= S m)%nat.
Proof.
  change 0%float with (clock i 0). generalize 0%nat as k, 0 as s.
  induction fuel as [|fuel IH]; intros k s; [exists O, O; repeat split; lia|].
  rewrite loop_cases.
  destruct (read_at w (clock i k * 1000)%float) as [frame|];
    [|exists 1%nat, O; repeat split; lia].
  destruct (filename (clock i k)) as [e|name] eqn:Hn;
    [exists 1%nat, O; repeat split; lia|].
  apply filename_fields in Hn. subst name. cbv zeta.
  destruct (IH (S k) (s + 1)) as (n & m & Hs & Hp & Hnm). cbn [clock] in Hs, Hp.
  destruct (imwrite w (Py.path_join od (frame_name (fields_at i k))) frame);
    [| |exists 1%nat, 1%nat; repeat split; lia].
  all: destruct (d <? clock i k + i)%float;
    [exists 1%nat, 1%nat; repeat split; lia|].
  all: destruct (loop w od i d fuel (clock i k + i)%float (s + 1)) as [tr res];
    exists (S n), (S m); cbn [fst] in *;
    rewrite seeks_app, image_paths_app, Hs, Hp; repeat split; lia.
Qed.

(** ** A clock that no longer advances *)

(** X7.  When the interval is too small for the clock to take it in
    ([current_time + interval] is [current_time] again), the clock is
    not past the duration, and the frame at the clock decodes and is
    written without an exception, the loop never ends from there:
    whatever the number of iterations allowed, it is still running, and
    all it has done is to seek to the same position and write the same
    file once per iteration. *)
Theorem stalled_clock_never_ends
  (w : World) (od : string) (i d t : float) (frame : Frame) (name : string)
  (fuel : nat) (s : Z) :
  (t + i)%float = t ->
  (d <? t)%float = false ->
  read_at w (t * 1000)%float = Some frame ->
  filename t = inr name ->
  imwrite w (Py.path_join od name) frame <> ImWriteRaises ->
  snd (loop w od i d fuel t s) = inl Unfinished /\
  seeks (fst (loop w od i d fuel t s)) = List.repeat (t * 1000)%float fuel /\
  image_paths (fst (loop w od i d fuel t s)) = List.repeat (Py.path_join od name) fuel.
Proof.
  intros Hstall Hd Hr Hn Hw. revert s.
  induction fuel as [|fuel IH]; intros s; [repeat split|].
  assert (Hd' : (d <? t + i)%float = false) by now rewrite Hstall.
  rewrite (loop_continue w od i d fuel t s frame name Hr Hn Hw Hd'), Hstall.
  specialize (IH (s + 1)).
  destruct (loop w od i d fuel t (s + 1)) as [tr res].
  cbn [fst snd] in *. destruct IH as (IH1 & IH2 & IH3).
  split; [exact IH1|]. split.
  - unfold seeks in *. rewrite flat_map_app, IH2. reflexivity.
  - rewrite image_paths_app, IH3. reflexivity.
Qed.

(** At [2^53] seconds an interval of one second is lost in rounding. *)
Lemma stalled_clock_at_2p53 :
  snd (loop (session 1 1 "1" Written) "out" 1 0x1p+60 7 0x1p+53 0) = inl Unfinished /\
  seeks (fst (loop (session 1 1 "1" Written) "out" 1 0x1p+60 7 0x1p+53 0))
  = List.repeat (0x1p+53 * 1000)%float 7 /\
  image_paths (fst (loop (session 1 1 "1" Written) "out" 1 0x1p+60 7 0x1p+53 0))
  = List.repeat (Py.path_join "out" "frame_2501999792983_36_32.000.png") 7.
Proof.
  apply (stalled_clock_never_ends (session 1 1 "1" Written) "out" 1 0x1p+60 0x1p+53
           [] "frame_2501999792983_36_32.000.png" 7 0).
  - vm_compute. reflexivity.
  - vm_compute. reflexivity.
  - reflexivity.
  - vm_compute. reflexivity.
  - discriminate.
Defined.

(** ** File names and fields *)

Lemma string_length_app (a b : string) :
  String.length (a ++ b) = (String.length a + String.length b)%nat.
Proof. induction a as [|c a IH]; cbn; [reflexivity|now rewrite IH]. Qed.

(** X8.  As long as the fields fit their widths, the file name has 22
    characters and determines the fields: two timestamps get the same
    name only if their hours, minutes, seconds and milliseconds are the
    same. *)
Theorem frame_name_injective (f g : Z * Z * Z * Z) :
  fits f -> fits g ->
  String.length (frame_name f) = 22%nat /\
  (frame_name f = frame_name g -> f = g).
Proof.
  intros Hf Hg. split.
  - destruct f as [[[h m] s] ms]. destruct Hf as (Hh & Hm & Hs & Hms).
    pose proof (padding_faithful_spec 2 100 two_digits_faithful) as P2.
    pose proof (padding_faithful_spec 3 1000 three_digits_faithful) as P3.
    destruct (P2 h h ltac:(lia) ltac:(lia)) as [Lh _].
    destruct (P2 m m ltac:(lia) ltac:(lia)) as [Lm _].
    destruct (P2 s s ltac:(lia) ltac:(lia)) as [Ls _].
    destruct (P3 ms ms ltac:(lia) ltac:(lia)) as [Lms _].
    unfold frame_name.
    rewrite !string_length_app.
    rewrite Lh, Lm, Ls, Lms. reflexivity.
  - intros Heq.
    pose proof (frame_name_compare f g Hf Hg) as Hc.
    rewrite Heq, string_compare_refl in Hc.
    destruct f as [[[h1 m1] s1] ms1], g as [[[h2 m2] s2] ms2].
    unfold fields_compare, lex in Hc.
    destruct (Z.compare_spec h1 h2); try discriminate.
    destruct (Z.compare_spec m1 m2); try discriminate.
    destruct (Z.compare_spec s1 s2); try discriminate.
    destruct (Z.compare_spec ms1 ms2); try discriminate.
    subst. reflexivity.
Qed.

Lemma frame_name_injective_example :
  String.length (frame_name (1, 2, 3, 4)) = 22%nat /\
  (frame_name (1, 2, 3, 4) = frame_name (1, 2, 3, 4) -> (1, 2, 3, 4) = (1, 2, 3, 4)).
Proof.
  apply (frame_name_injective (1, 2, 3, 4) (1, 2, 3, 4)); cbv; intuition discriminate.
Defined.

(** ** Whole seconds *)

Lemma whole_seconds_faithful_spec (step : Z) (n : nat) :
  whole_seconds_faithful step n = true ->
  forall a, 0 <= a < Z.of_nat n ->
    timestamp (Py.float_of_Z (step * a))
    = inr (step * a / 3600, (step * a) mod 3600 / 60, (step * a) mod 60, 0).
Proof.
  unfold whole_seconds_faithful. intros H a Ha.
  rewrite forallb_forall in H. specialize (H a (in_below n a Ha)). cbv zeta in H.
  destruct (timestamp (Py.float_of_Z (step * a))) as [e|[[[hh mm] ss] ms_int]];
    [discriminate|].
  rewrite !andb_true_iff, !Z.eqb_eq in H.
  destruct H as [[[-> ->] ->] ->]. reflexivity.
Qed.

Lemma seconds_of_an_hour_faithful : whole_seconds_faithful 1 3600 = true.
Proof. vm_compute. reflexivity. Qed.

Lemma minutes_of_100_hours_faithful : whole_seconds_faithful 60 (60 * 100) = true.
Proof. vm_compute. reflexivity. Qed.

(** X9.  At a clock value of a whole number [t] of seconds, the fields
    of the file name are the hours, minutes and seconds of [t], and the
    millisecond field is 0: for every whole second of the first hour,
    and for every whole minute of the first 100 hours. *)
Theorem whole_seconds_fields (t : Z) :
  0 <= t < 3600 \/ (0 <= t < 360000 /\ t mod 60 = 0) ->
  timestamp (Py.float_of_Z t) = inr (t / 3600, t mod 3600 / 60, t mod 60, 0).
Proof.
  intros [Ht|[Ht Hm]].
  - pose proof (whole_seconds_faithful_spec 1 3600 seconds_of_an_hour_faithful t) as H.
    rewrite Z.mul_1_l in H. apply H. lia.
  - pose proof (whole_seconds_faithful_spec 60 (60 * 100) minutes_of_100_hours_faithful
                  (t / 60)) as H.
    replace (60 * (t / 60)) with t in H
      by (rewrite (Z.div_mod t 60) at 1 by lia; lia).
    apply H. split; [apply Z.div_pos; lia|].
    apply Z.div_lt_upper_bound; lia.
Qed.

Lemma whole_seconds_fields_at_1h_2min :
  timestamp (Py.float_of_Z 3720) = inr (3720 / 3600, 3720 mod 3600 / 60, 3720 mod 60, 0).
Proof.
  apply (whole_seconds_fields 3720). right. split; [lia|reflexivity].
Defined.

(** ** Exceptions that can escape *)

Lemma int_raises (x : float) (e : PyExn) :
  Py.int x = inl e -> e = ValueError \/ e = OverflowError.
Proof.
  unfold Py.int. destruct (Prim2SF x); intros H; inversion H; auto.
Qed.

Lemma round_raises (x : float) (e : PyExn) :
  Py.round x = inl e -> e = ValueError \/ e = OverflowError.
Proof.
  unfold Py.round. destruct (Prim2SF x); intros H; inversion H; auto.
Qed.

Lemma floordiv_raises (x y : float) (e : PyExn) :
  Py.floordiv x y = inl e -> (y =? 0)%float = true.
Proof. unfold Py.floordiv. destruct (y =? 0)%float; [reflexivity|discriminate]. Qed.

Lemma rem_raises (x y : float) (e : PyExn) :
  Py.rem x y = inl e -> (y =? 0)%float = true.
Proof. unfold Py.rem. destruct (y =? 0)%float; [reflexivity|discriminate]. Qed.

Lemma truediv_raises (x y : float) (e : PyExn) :
  Py.truediv x y = inl e -> (y =? 0)%float = true.
Proof. unfold Py.truediv. destruct (y =? 0)%float; [reflexivity|discriminate]. Qed.

(** An interval that is not [<= 0] is not [== 0]. *)
Lemma not_leb_zero_nonzero (i : float) :
  (i <=? 0)%float = false -> (i =? 0)%float = false.
Proof.
  rewrite leb_spec, eqb_spec. unfold SFleb, SFeqb.
  destruct (SFcompare (Prim2SF i) (Prim2SF 0)) as [[| |]|]; intros H;
    try reflexivity; discriminate.
Qed.

Lemma timestamp_raises (t : float) (e : PyExn) :
  timestamp t = inl e -> e = ValueError \/ e = OverflowError.
Proof.
  unfold timestamp, bind, ret.
  destruct (Py.floordiv t 3600) as [e1|q1] eqn:H1;
    [apply floordiv_raises in H1; discriminate|].
  destruct (Py.int q1) as [e2|hh] eqn:H2;
    [intros H; inversion H; subst; exact (int_raises _ _ H2)|].
  destruct (Py.rem t 3600) as [e3|r3] eqn:H3;
    [apply rem_raises in H3; discriminate|].
  destruct (Py.floordiv r3 60) as [e4|q4] eqn:H4;
    [apply floordiv_raises in H4; discriminate|].
  destruct (Py.int q4) as [e5|mm] eqn:H5;
    [intros H; inversion H; subst; exact (int_raises _ _ H5)|].
  destruct (Py.rem t 60) as [e6|r6] eqn:H6;
    [apply rem_raises in H6; discriminate|].
  destruct (Py.int r6) as [e7|ss] eqn:H7;
    [intros H; inversion H; subst; exact (int_raises _ _ H7)|].
  destruct (Py.int t) as [e8|n] eqn:H8;
    [intros H; inversion H; subst; exact (int_raises _ _ H8)|].
  destruct (Py.round ((t - Py.float_of_Z n) * 1000)) as [e9|ms] eqn:H9;
    [intros H; inversion H; subst; exact (round_raises _ _ H9)|].
  discriminate.
Qed.

Lemma filename_raises (t : float) (e : PyExn) :
  filename t = inl e -> e = ValueError \/ e = OverflowError.
Proof.
  unfold filename, bind, ret.
  destruct (timestamp t) as [e1|f] eqn:H1; [|discriminate].
  intros H; inversion H; subst. exact (timestamp_raises _ _ H1).
Qed.

(** What can escape from the loop: a timestamp that is not finite, or
    the image writer. *)
Lemma loop_raises (w : World) (od : string) (i d : float)
  (fuel : nat) (t : float) (s : Z) (e : PyExn) :
  snd (loop w od i d fuel t s) = inl (Uncaught e) ->
  e = ValueError \/ e = OverflowError \/ e = CvError.
Proof.
  revert t s. induction fuel as [|fuel IH]; intros t s; [discriminate|].
  rewrite loop_cases.
  destruct (read_at w (t * 1000)%float) as [frame|]; [|discriminate].
  destruct (filename t) as [e'|name] eqn:Hn.
  - cbn [snd]. intros H. inversion H. subst.
    destruct (filename_raises _ _ Hn) as [->| ->]; auto.
  - cbv zeta. specialize (IH (t + i)%float (s + 1)).
    destruct (imwrite w (Py.path_join od name) frame);
      [| |cbn [snd]; intros H; inversion H; auto].
    all: destruct (d <? t + i)%float; [discriminate|].
    all: destruct (loop w od i d fuel (t + i)%float (s + 1)) as [tr res]; exact IH.
Qed.

(** The division of line 54 is behind its guard. *)
Lemma duration_raises (w : World) (e : PyExn) :
  duration_of w = inl e -> e = ValueError \/ e = OverflowError.
Proof.
  unfold duration_of, bind, ret.
  assert (D : forall n, (if (0 <? prop_fps w)%float
                         then Py.truediv (Py.float_of_Z n) (prop_fps w)
                         else inr 0%float) <> inl e).
  { intros n. destruct (0 <? prop_fps w)%float eqn:Hfps; [|discriminate].
    intros H. apply truediv_raises in H.
    rewrite (ltb_zero_nonzero _ Hfps) in H. discriminate. }
  destruct (Py.nonzero (prop_frame_count w)).
  - destruct (Py.int (prop_frame_count w)) as [e1|n] eqn:H1.
    + intros H; inversion H; subst. exact (int_raises _ _ H1).
    + intros H. now elim (D n).
  - intros H. now elim (D 0).
Qed.

(** The floor division of line 57 is behind the validation. *)
Lemma expected_frames_raises (d i : float) (e : PyExn) :
  (i <=? 0)%float = false ->
  expected_frames d i = inl e -> e = ValueError \/ e = OverflowError.
Proof.
  intros Hi. unfold expected_frames, bind, ret.
  destruct (0 <? d)%float; [|discriminate].
  destruct (Py.floordiv d i) as [e1|q] eqn:H1.
  - apply floordiv_raises in H1. rewrite (not_leb_zero_nonzero i Hi) in H1.
    discriminate.
  - destruct (Py.int q) as [e2|n] eqn:H2; [|discriminate].
    intros H; inversion H; subst. exact (int_raises _ _ H2).
Qed.

Lemma extract_raises (w : World) (fuel : nat) (ip od : string) (i : float)
  (e : PyExn) :
  (i <=? 0)%float = false ->
  snd (extract w fuel ip od i) = inl (Uncaught e) ->
  e = ValueError \/ e = OverflowError \/ e = CvError.
Proof.
  intros Hi. unfold extract.
  destruct (isOpened w ip); [|discriminate].
  destruct (duration_of w) as [e'|d] eqn:Hd;
    cbv beta iota delta [andthen emit pure stop lift].
  - cbn [snd]. intros H. inversion H. subst.
    destruct (duration_raises _ _ Hd) as [->| ->]; auto.
  - destruct (expected_frames d i) as [e'|total] eqn:He.
    + cbn [snd]. intros H. inversion H. subst.
      destruct (expected_frames_raises _ _ _ Hi He) as [->| ->]; auto.
    + pose proof (loop_raises w od i d fuel 0%float 0 e) as Hl.
      destruct (loop w od i d fuel 0%float 0) as [tr [o|saved]]; cbn [snd] in *.
      * intros H. apply Hl. inversion H. reflexivity.
      * discriminate.
Qed.

Lemma main_raises (w : World) (fuel : nat) (e : PyExn) :
  snd (main w fuel) = inl (Uncaught e) ->
  e = OSError \/ e = ValueError \/ e = OverflowError \/ e = CvError.
Proof.
  destruct (stdin w) as [|l1 [|l2 [|l3 rest]]] eqn:Hin.
  1-3: unfold main, ask; rewrite Hin; discriminate.
  destruct (parse_interval_cases (Py.strip l3)) as [Hp|(i & Hp & _ & Hi)].
  - rewrite (main_refused w fuel l1 l2 l3 rest _ Hin Hp). discriminate.
  - rewrite (main_parsed w fuel l1 l2 l3 rest i Hin Hp).
    destruct (isfile w (Py.strip l1)); [|discriminate].
    destruct (makedirs w (Py.strip l2)).
    + cbn [snd]. intros H.
      destruct (extract_raises _ _ _ _ _ _ Hi H) as [->|[->| ->]]; auto.
    + cbn [snd]. intros H. inversion H. auto.
Qed.

(** X10.  No run ends with [ZeroDivisionError], and an exception that
    escapes is [OSError], [ValueError], [OverflowError] or the image
    writer's error: the validation [interval <= 0] before
    [duration_sec // interval] and the guard [fps > 0] before
    [total_frames / fps] keep every division and remainder of the
    program away from a zero divisor, for every input, every video and
    every interval, nan and the infinities included. *)
Theorem never_zero_division (w : World) (fuel : nat) :
  match snd (main w fuel) with
  | inl (Uncaught e) =>
      e = OSError \/ e = ValueError \/ e = OverflowError \/ e = CvError
  | _ => True
  end.
Proof.
  pose proof (main_raises w fuel) as H.
  destruct (snd (main w fuel)) as [[|m|e|]|u]; try exact I.
  now apply H.
Qed.
